(** * Path rewriting engines of the Cyb3Raya blog tooling

    A shallow embedding of the two rewrite engines of the repository,

    - [fix_pages_paths.py] (engine 1): [is_external], [normalize_root_path],
      [rewrite_text], the two compiled patterns [ATTR_PATTERN] and
      [CSS_URL_PATTERN], and the loop of [main] over the files found;
    - [fix_paths.py] (engine 2): [apply_replacements],
      [is_probably_text_file], [load_text], [save_text], [should_skip_dir]
      and the walk of [main] over the tree below the root;

    together with the parts of the Python runtime they call: the string
    methods [strip], [lower], [startswith], [endswith], [replace], [split],
    the backtracking matcher of the [re] module with [Pattern.sub] and
    replacement templates, the [name], [suffix] and [with_suffix] of
    [pathlib], and the reading and writing of text files.

    Strings are lists of characters; a character is a code point below 256
    (the Latin-1 range of Unicode), on which the character classes of the
    runtime (white space, word characters, lower-casing) are tabulated.
    An exception that leaves a function is the result [Raise].  The files
    are a map from paths to contents, passed from one step of a loop to
    the next; the parsing of the command line, the search for the files
    and the printed summary are outside the model. *)

From Stdlib Require Import Ascii String ZArith NArith Lia Bool Arith List.
Import ListNotations.

Definition str := list ascii.

(** A string literal of the source. *)
Definition lit (s : string) : str := list_ascii_of_string s.

(** The double quote character, code point 34. *)
Definition dquote : ascii := "034"%char.
(** The single quote character, code point 39. *)
Definition squote : ascii := "039"%char.
(** The backslash character, code point 92. *)
Definition backslash : ascii := "092"%char.

(** ** Results of fallible calls *)

Inductive res (A : Type) : Type :=
| Ok (a : A)
| Raise.
Arguments Ok {A} a.
Arguments Raise {A}.

Definition bind {A B : Type} (c : res A) (k : A -> res B) : res B :=
  match c with
  | Ok a => k a
  | Raise => Raise
  end.

Notation "x <- c1 ;; c2" := (bind c1 (fun x => c2))
  (at level 61, c1 at next level, right associativity).
Notation "' pat <- c1 ;; c2" := (bind c1 (fun x => match x with pat => c2 end))
  (at level 61, pat pattern, c1 at next level, right associativity).

(** ** The string methods of the runtime *)

Module Py.

Definition ord (c : ascii) : N := N_of_ascii c.

Definition between (lo hi : N) (c : ascii) : bool :=
  ((lo <=? ord c) && (ord c <=? hi))%N.

(** [str.isspace] on one character: TAB..CR, FS..US, SPACE, NEL, NBSP. *)
Definition isspace (c : ascii) : bool :=
  between 9 13 c || between 28 32 c || (ord c =? 133)%N || (ord c =? 160)%N.

(** [str.isalnum] on one character. *)
Definition isalnum (c : ascii) : bool :=
  between 48 57 c || between 65 90 c || between 97 122 c
  || (ord c =? 170)%N || between 178 179 c || (ord c =? 181)%N
  || between 185 186 c || between 188 190 c
  || between 192 214 c || between 216 246 c || between 248 255 c.

(** [str.lower] on one character. *)
Definition lower_char (c : ascii) : ascii :=
  if between 65 90 c || between 192 214 c || between 216 222 c
  then ascii_of_N (ord c + 32) else c.

Definition lower (s : str) : str := map lower_char s.

Fixpoint eqb (s t : str) : bool :=
  match s, t with
  | [], [] => true
  | c :: s', d :: t' => Ascii.eqb c d && eqb s' t'
  | _, _ => false
  end.

Fixpoint startswith (s pre : str) {struct pre} : bool :=
  match pre, s with
  | [], _ => true
  | d :: pre', c :: s' => Ascii.eqb c d && startswith s' pre'
  | _ :: _, [] => false
  end.

Definition endswith (s suf : str) : bool := startswith (rev s) (rev suf).

Fixpoint lstrip (s : str) : str :=
  match s with
  | c :: s' => if isspace c then lstrip s' else s
  | [] => []
  end.

Definition rstrip (s : str) : str := rev (lstrip (rev s)).

Definition strip (s : str) : str := rstrip (lstrip s).

(** [sep.join(parts)] *)
Fixpoint join (sep : str) (parts : list str) : str :=
  match parts with
  | [] => []
  | [x] => x
  | x :: rest => x ++ sep ++ join sep rest
  end.

(** [s.replace(old, new)] for a non-empty [old]: the occurrences are found
    from left to right and do not overlap.  [skip] counts the characters of
    the occurrence just replaced that are still to be passed over. *)
Fixpoint replace_from (old new : str) (skip : nat) (s : str) : str :=
  match s with
  | [] => []
  | c :: s' =>
      match skip with
      | S n => replace_from old new n s'
      | O => if startswith s old
             then new ++ replace_from old new (length old - 1) s'
             else c :: replace_from old new 0 s'
      end
  end.

(** [s.replace(old, new)]; an empty [old] matches between all characters. *)
Definition replace (s old new : str) : str :=
  match old with
  | [] => new ++ flat_map (fun c => c :: new) s
  | _ :: _ => replace_from old new 0 s
  end.

Definition cons_head (c : ascii) (segs : list str) : list str :=
  match segs with
  | x :: rest => (c :: x) :: rest
  | [] => [[c]]
  end.

(** The segments of [s.split(sep)] for a non-empty [sep]. *)
Fixpoint split_from (sep : str) (skip : nat) (s : str) : list str :=
  match s with
  | [] => [[]]
  | c :: s' =>
      match skip with
      | S n => split_from sep n s'
      | O => if startswith s sep
             then [] :: split_from sep (length sep - 1) s'
             else cons_head c (split_from sep 0 s')
      end
  end.

(** [s.split(sep)]; an empty separator raises [ValueError]. *)
Definition split (s sep : str) : res (list str) :=
  match sep with
  | [] => Raise
  | _ :: _ => Ok (split_from sep 0 s)
  end.

End Py.

(** ** The [re] module: backtracking matcher, [sub] and templates *)

Module Re.

(** The regular expressions the program compiles.  Repetition is only ever
    applied to a character class, greedily. *)
Inductive regex : Type :=
| Eps
| Chr (P : ascii -> bool)
| Seq (r1 r2 : regex)
| Alt (r1 r2 : regex)
| Star (P : ascii -> bool)
| Bol
| Eol
| WordB
| Ahead (r : regex).

(** [r?], greedy *)
Definition Opt (r : regex) : regex := Alt r Eps.

(** A position in the subject: the text before it, nearest character first,
    and the text after it. *)
Record cursor : Type := { before : str; after : str }.

(** [\w] of a str pattern *)
Definition is_word (c : ascii) : bool :=
  Py.isalnum c || Ascii.eqb c "_".

(** [\b]: exactly one side of the position is a word character. *)
Definition at_boundary (c : cursor) : bool :=
  xorb (match before c with x :: _ => is_word x | [] => false end)
       (match after c with x :: _ => is_word x | [] => false end).

(** [$] without MULTILINE: at the end, or before a final newline. *)
Definition at_end (c : cursor) : bool :=
  match after c with
  | [] => true
  | [x] => Ascii.eqb x "010"
  | _ => false
  end.

(** Greedy [P*] followed by the rest of the pattern [k]: the longest run is
    tried first, then shorter ones. *)
Fixpoint star {A : Type} (P : ascii -> bool) (k : cursor -> option A)
         (bef aft : str) {struct aft} : option A :=
  match aft with
  | c :: aft' =>
      if P c then
        match star P k (c :: bef) aft' with
        | Some x => Some x
        | None => k {| before := bef; after := aft |}
        end
      else k {| before := bef; after := aft |}
  | [] => k {| before := bef; after := [] |}
  end.

(** The matcher, in continuation-passing style: [k] is the rest of the
    pattern, and the first success in priority order is the answer. *)
Fixpoint rmatch (r : regex) {A : Type} (c : cursor)
         (k : cursor -> option A) {struct r} : option A :=
  match r with
  | Eps => k c
  | Chr P =>
      match after c with
      | x :: aft' =>
          if P x then k {| before := x :: before c; after := aft' |} else None
      | [] => None
      end
  | Seq r1 r2 => rmatch r1 c (fun c1 => rmatch r2 c1 k)
  | Alt r1 r2 =>
      match rmatch r1 c k with
      | Some x => Some x
      | None => rmatch r2 c k
      end
  | Star P => star P k (before c) (after c)
  | Bol => match before c with [] => k c | _ :: _ => None end
  | Eol => if at_end c then k c else None
  | WordB => if at_boundary c then k c else None
  | Ahead r1 =>
      match rmatch r1 c (fun _ => Some tt) with
      | Some _ => k c
      | None => None
      end
  end.

(** The least number of characters that a match of [r] consumes. *)
Fixpoint min_len (r : regex) : nat :=
  match r with
  | Chr _ => 1
  | Seq r1 r2 => min_len r1 + min_len r2
  | Alt r1 r2 => Nat.min (min_len r1) (min_len r2)
  | _ => 0
  end.

(** A literal character, and the same under IGNORECASE. *)
Definition chr (c : ascii) : regex := Chr (Ascii.eqb c).
Definition ichr (c : ascii) : regex :=
  Chr (fun x => Ascii.eqb (Py.lower_char x) (Py.lower_char c)).

(** A literal string: what [re.escape] makes of its argument. *)
Fixpoint lits (s : str) : regex :=
  match s with
  | [] => Eps
  | c :: s' => Seq (chr c) (lits s')
  end.

Fixpoint ilits (s : str) : regex :=
  match s with
  | [] => Eps
  | c :: s' => Seq (ichr c) (ilits s')
  end.

(** The text between two positions of one subject. *)
Definition capture (c c' : cursor) : str :=
  firstn (length (after c) - length (after c')) (after c).

(** A match of a pattern without groups: group 0 and the end position. *)
Definition match0 (r : regex) (c : cursor) : option (str * cursor) :=
  rmatch r c (fun c' => Some (capture c c', c')).

(** A pattern made of the three consecutive named groups [prefix], [path]
    and [suffix]. *)
Record pattern3 : Type :=
  { g_prefix : regex; g_path : regex; g_suffix : regex }.

(** The match object of such a pattern: [m.group(name)]. *)
Record Match : Type := { m_prefix : str; m_path : str; m_suffix : str }.

Definition match3 (p : pattern3) (c : cursor) : option (Match * cursor) :=
  rmatch (g_prefix p) c (fun c1 =>
  rmatch (g_path p) c1 (fun c2 =>
  rmatch (g_suffix p) c2 (fun c3 =>
    Some ({| m_prefix := capture c c1;
             m_path := capture c1 c2;
             m_suffix := capture c2 c3 |}, c3)))).

(** [Pattern.sub(repl, string)] with a callable [repl] that may update a
    variable of the enclosing scope (the state [s]) and may raise.  The
    subject is scanned from left to right; [mt] tries the pattern at one
    position.  After a match of [n+1] characters the scan passes over the
    [n] remaining ones ([skip]) before it tries again, so matches do not
    overlap, while the look-behind context [bef] stays that of the whole
    subject.  None of the patterns of this program matches the empty
    string, so no match is tried at the very end of the subject. *)
Fixpoint sub_scan {M S : Type} (mt : cursor -> option (M * cursor))
         (repl : M -> S -> res (str * S))
         (skip : nat) (bef aft : str) (s : S) {struct aft} : res (str * S) :=
  match aft with
  | [] => Ok ([], s)
  | c :: aft' =>
      match skip with
      | S n => sub_scan mt repl n (c :: bef) aft' s
      | O =>
          let copy :=
            '(rest, s') <- sub_scan mt repl 0 (c :: bef) aft' s ;;
            Ok (c :: rest, s') in
          match mt {| before := bef; after := aft |} with
          | Some (m, c') =>
              match length aft - length (after c') with
              | S n =>
                  '(new, s1) <- repl m s ;;
                  '(rest, s2) <- sub_scan mt repl n (c :: bef) aft' s1 ;;
                  Ok (new ++ rest, s2)
              | O => copy
              end
          | None => copy
          end
      end
  end.

(** The matches that [sub_scan] visits, in order, as [Pattern.finditer]
    lists them. *)
Fixpoint scan_matches {M : Type} (mt : cursor -> option (M * cursor))
         (skip : nat) (bef aft : str) {struct aft} : list M :=
  match aft with
  | [] => []
  | c :: aft' =>
      match skip with
      | S n => scan_matches mt n (c :: bef) aft'
      | O =>
          match mt {| before := bef; after := aft |} with
          | Some (m, c') =>
              match length aft - length (after c') with
              | S n => m :: scan_matches mt n (c :: bef) aft'
              | O => scan_matches mt 0 (c :: bef) aft'
              end
          | None => scan_matches mt 0 (c :: bef) aft'
          end
      end
  end.

Definition finditer {M : Type} (mt : cursor -> option (M * cursor))
           (text : str) : list M :=
  scan_matches mt 0 [] text.

Definition sub {M S : Type} (mt : cursor -> option (M * cursor))
           (repl : M -> S -> res (str * S)) (text : str) (s : S)
  : res (str * S) :=
  sub_scan mt repl 0 [] text s.

(** *** Replacement templates

    A replacement given as a string is compiled before the subject is
    searched.  For a pattern without groups the only valid group reference
    is group 0. *)
Inductive part : Type :=
| Lit (c : ascii)
| Group0.

Definition is_digit (c : ascii) : bool := Py.between 48 57 c.
Definition is_octdigit (c : ascii) : bool := Py.between 48 55 c.
Definition digit_val (c : ascii) : N := (Py.ord c - 48)%N.
Definition is_ascii_letter (c : ascii) : bool :=
  Py.between 65 90 c || Py.between 97 122 c.

(** The escapes of the template language that stand for one character. *)
Definition escape_of (c : ascii) : option ascii :=
  if Ascii.eqb c "a" then Some "007"%char
  else if Ascii.eqb c "b" then Some "008"%char
  else if Ascii.eqb c "f" then Some "012"%char
  else if Ascii.eqb c "n" then Some "010"%char
  else if Ascii.eqb c "r" then Some "013"%char
  else if Ascii.eqb c "t" then Some "009"%char
  else if Ascii.eqb c "v" then Some "011"%char
  else if Ascii.eqb c backslash then Some backslash
  else None.

Definition lit_then (c : ascii) (r : res (list part)) : res (list part) :=
  p <- r ;; Ok (Lit c :: p).

(** The template parser of a pattern without groups, as in CPython 3.12:
    a group name is a run of ASCII digits or an identifier; here only a
    run of zeros names an existing group, and every other name raises.
    (Earlier versions also read a signed, padded or underscored zero as
    group 0, with a deprecation warning.) *)
Fixpoint parse_template (s : str) : res (list part) :=
  match s with
  | [] => Ok []
  | c :: rest =>
      if negb (Ascii.eqb c backslash) then lit_then c (parse_template rest)
      else
        match rest with
        | [] => Raise
        | e :: rest1 =>
            if Ascii.eqb e "g" then
              match rest1 with
              | lt :: rest2 =>
                  if Ascii.eqb lt "<" then
                    (fix name (seen : bool) (t : str) {struct t}
                       : res (list part) :=
                       match t with
                       | [] => Raise
                       | d :: t' =>
                           if Ascii.eqb d ">" then
                             if seen
                             then p <- parse_template t' ;; Ok (Group0 :: p)
                             else Raise
                           else if Ascii.eqb d "0" then name true t'
                           else Raise
                       end) false rest2
                  else Raise
              | [] => Raise
              end
            else if Ascii.eqb e "0" then
              match rest1 with
              | d1 :: rest2 =>
                  if is_octdigit d1 then
                    match rest2 with
                    | d2 :: rest3 =>
                        if is_octdigit d2
                        then lit_then
                               (ascii_of_N (8 * digit_val d1 + digit_val d2))
                               (parse_template rest3)
                        else lit_then (ascii_of_N (digit_val d1))
                                      (parse_template rest2)
                    | [] => Ok [Lit (ascii_of_N (digit_val d1))]
                    end
                  else lit_then zero (parse_template rest1)
              | [] => Ok [Lit zero]
              end
            else if is_digit e then
              match rest1 with
              | d2 :: d3 :: rest3 =>
                  if is_octdigit e && is_octdigit d2 && is_octdigit d3 then
                    let v := (64 * digit_val e + 8 * digit_val d2
                              + digit_val d3)%N in
                    if (255 <? v)%N then Raise
                    else lit_then (ascii_of_N v) (parse_template rest3)
                  else Raise
              | _ => Raise
              end
            else
              match escape_of e with
              | Some x => lit_then x (parse_template rest1)
              | None =>
                  if is_ascii_letter e then Raise
                  else lit_then c (lit_then e (parse_template rest1))
              end
        end
  end.

(** A template without a backslash is taken literally, without parsing. *)
Definition compile_template (repl : str) : res (list part) :=
  if negb (existsb (Ascii.eqb backslash) repl)
  then Ok (map Lit repl)
  else parse_template repl.

Fixpoint expand (tpl : list part) (group0 : str) : str :=
  match tpl with
  | [] => []
  | Lit c :: tpl' => c :: expand tpl' group0
  | Group0 :: tpl' => group0 ++ expand tpl' group0
  end.

(** [re.sub(pattern, repl, string)] with a string [repl] and a pattern
    without groups. *)
Definition sub_template (r : regex) (repl : str) (text : str) : res str :=
  tpl <- compile_template repl ;;
  '(out, _) <- sub (match0 r) (fun m (_ : unit) => Ok (expand tpl m, tt))
                   text tt ;;
  Ok out.

End Re.

(** ** Engine 1: [fix_pages_paths.py] *)

Module FixPagesPaths.

Definition is_quote (c : ascii) : bool :=
  Ascii.eqb c dquote || Ascii.eqb c squote.

(** [ATTR_PATTERN], compiled with IGNORECASE and VERBOSE:
    prefix [\b(?:href|src|action)\s*=\s*Q], path [N*], suffix [Q],
    where [Q] is the class of the two quote characters and [N] its
    complement. *)
Definition ATTR_PATTERN : Re.pattern3 :=
  {| Re.g_prefix :=
       Re.Seq Re.WordB
      (Re.Seq (Re.Alt (Re.ilits (lit "href"))
              (Re.Alt (Re.ilits (lit "src"))
                      (Re.ilits (lit "action"))))
      (Re.Seq (Re.Star Py.isspace)
      (Re.Seq (Re.ichr "=")
      (Re.Seq (Re.Star Py.isspace)
              (Re.Chr is_quote)))));
     Re.g_path := Re.Star (fun c => negb (is_quote c));
     Re.g_suffix := Re.Chr is_quote |}.

(** [CSS_URL_PATTERN], compiled with IGNORECASE and VERBOSE:
    prefix [\burl\(\s*Q?], path [N*], suffix [Q?\s*\)], where [N] is the
    class of the characters other than the closing parenthesis and the two
    quote characters. *)
Definition CSS_URL_PATTERN : Re.pattern3 :=
  {| Re.g_prefix :=
       Re.Seq Re.WordB
      (Re.Seq (Re.ilits (lit "url("))
      (Re.Seq (Re.Star Py.isspace)
              (Re.Opt (Re.Chr is_quote))));
     Re.g_path := Re.Star (fun c => negb (Ascii.eqb c ")" || is_quote c));
     Re.g_suffix :=
       Re.Seq (Re.Opt (Re.Chr is_quote))
      (Re.Seq (Re.Star Py.isspace)
              (Re.ichr ")")) |}.

Definition is_external (url : str) : bool :=
  let u := Py.strip url in
  let low := Py.lower u in
  Py.startswith low (lit "http://")
  || Py.startswith low (lit "https://")
  || Py.startswith low (lit "mailto:")
  || Py.startswith low (lit "tel:")
  || Py.startswith low (lit "data:")
  || Py.startswith low (lit "javascript:")
  || Py.startswith low (lit "//")
  || Py.startswith low (lit "#").

(** The pattern built in [normalize_root_path]:
    [^/] then the escaped [repo] then [/Cyb3Raya(?=/|$)]. *)
Definition doubled_prefix (repo : str) : Re.regex :=
  Re.Seq Re.Bol
 (Re.Seq (Re.chr "/")
 (Re.Seq (Re.lits repo)
 (Re.Seq (Re.lits (lit "/Cyb3Raya"))
         (Re.Ahead (Re.Alt (Re.chr "/") Re.Eol))))).

Definition normalize_root_path (path repo : str) : res str :=
  let p := Py.strip path in
  if negb (Py.startswith p (lit "/")) then Ok path
  else if is_external p then Ok path
  else
    let good := lit "/" ++ repo in
    if Py.eqb p good || Py.startswith p (good ++ lit "/") then
      Re.sub_template (doubled_prefix repo) (lit "/" ++ repo) p
    else if Py.eqb p (lit "/Cyb3Raya") || Py.startswith p (lit "/Cyb3Raya/")
    then
      let remainder := skipn (length (lit "/Cyb3Raya")) p in
      let remainder :=
        if Py.eqb remainder [] then lit "/" else remainder in
      Ok (lit "/" ++ repo ++ remainder)
    else Ok (lit "/" ++ repo ++ p).

(** The closure [repl_attr] of [rewrite_text]; [count] is the variable of
    the enclosing scope. *)
Definition repl_attr (repo : str) (m : Re.Match) (count : Z)
  : res (str * Z) :=
  let old := Re.m_path m in
  new <- (if Py.startswith (Py.strip old) (lit "/")
          then normalize_root_path old repo
          else Ok old) ;;
  let count := if negb (Py.eqb new old) then (count + 1)%Z else count in
  Ok (Re.m_prefix m ++ new ++ Re.m_suffix m, count).

(** The closure [repl_css] of [rewrite_text]. *)
Definition repl_css (repo : str) (m : Re.Match) (count : Z)
  : res (str * Z) :=
  let old := Re.m_path m in
  new <- (if Py.startswith (Py.strip old) (lit "/")
          then normalize_root_path old repo
          else Ok old) ;;
  let count := if negb (Py.eqb new old) then (count + 1)%Z else count in
  Ok (Re.m_prefix m ++ new ++ Re.m_suffix m, count).

Definition rewrite_text (text repo : str) : res (str * Z) :=
  let count := 0%Z in
  '(out, count) <- Re.sub (Re.match3 ATTR_PATTERN) (repl_attr repo)
                          text count ;;
  '(out, count) <- Re.sub (Re.match3 CSS_URL_PATTERN) (repl_css repo)
                          out count ;;
  Ok (out, count).

End FixPagesPaths.

(** ** Engine 2: [fix_paths.py] *)

Module FixPaths.

(** One turn of the loop of [apply_replacements] on the pair
    [(new_content, total)]. *)
Definition replace_prefix (st : str * Z) (prefix : str) : res (str * Z) :=
  let '(new_content, total) := st in
  match prefix with
  | [] => Ok (new_content, total)
  | _ :: _ =>
      let p := prefix in
      let p := if negb (Py.startswith p (lit "/")) then lit "/" ++ p else p in
      let p := if negb (Py.endswith p (lit "/")) then p ++ lit "/" else p in
      let before := new_content in
      let new_content := Py.replace new_content p (lit "/") in
      parts <- Py.split before p ;;
      Ok (new_content,
          (total + Z.max 0 (Z.of_nat (length parts) - 1))%Z)
  end.

Fixpoint for_each (bad_prefixes : list str) (st : str * Z)
  : res (str * Z) :=
  match bad_prefixes with
  | [] => Ok st
  | prefix :: rest =>
      st' <- replace_prefix st prefix ;;
      for_each rest st'
  end.

Definition apply_replacements (content : str) (bad_prefixes : list str)
  : res (str * Z) :=
  for_each bad_prefixes (content, 0%Z).

End FixPaths.

(** ** More of the runtime: [str.strip(chars)], [pathlib], text files *)

Module PyLib.

(** [s.lstrip(chars)], [s.rstrip(chars)] and [s.strip(chars)] *)
Fixpoint lstrip_chars (s chars : str) : str :=
  match s with
  | c :: s' => if existsb (Ascii.eqb c) chars then lstrip_chars s' chars else s
  | [] => []
  end.

Definition rstrip_chars (s chars : str) : str :=
  rev (lstrip_chars (rev s) chars).

Definition strip_chars (s chars : str) : str :=
  rstrip_chars (lstrip_chars s chars) chars.

(** [s.rfind(c)] for one character [c]; [None] stands for -1.  [i] is the
    index of the head of [s], [found] the last index seen so far. *)
Fixpoint rfind_from (c : ascii) (s : str) (i : nat) (found : option nat)
  : option nat :=
  match s with
  | [] => found
  | x :: s' => rfind_from c s' (S i) (if Ascii.eqb x c then Some i else found)
  end.

Definition rfind (s : str) (c : ascii) : option nat := rfind_from c s 0 None.

(** What a text file gives when it is read in text mode: the line ends
    [\r\n] and [\r] become [\n]. *)
Fixpoint universal_newlines (s : str) : str :=
  match s with
  | [] => []
  | c :: s' =>
      if Ascii.eqb c "013" then
        match s' with
        | d :: s'' =>
            if Ascii.eqb d "010" then "010"%char :: universal_newlines s''
            else "010"%char :: universal_newlines s'
        | [] => ["010"%char]
        end
      else c :: universal_newlines s'
  end.

(** The UTF-8 encoding of a text whose code points are below 256. *)
Definition utf8_char (c : ascii) : str :=
  if (Py.ord c <? 128)%N then [c]
  else [ascii_of_N (192 + Py.ord c / 64); ascii_of_N (128 + Py.ord c mod 64)].

Definition utf8_encode (s : str) : str := flat_map utf8_char s.

End PyLib.

(** [pathlib] on a POSIX system.  A path is the list of its [parts]; the
    root of an absolute path is the part [/]. *)
Module Pathlib.

Definition Path := list str.

Definition path_eqb (p q : Path) : bool :=
  (fix go (p q : Path) : bool :=
     match p, q with
     | [], [] => true
     | x :: p', y :: q' => Py.eqb x y && go p' q'
     | _, _ => false
     end) p q.

(** [path.name]: the last part, unless it is the root. *)
Definition name (p : Path) : str :=
  match rev p with
  | x :: _ => if Py.eqb x (lit "/") then [] else x
  | [] => []
  end.

(** [path.suffix], as in CPython up to 3.13: what begins at the last dot
    of the name, when that dot is neither the first nor the last
    character. *)
Definition suffix (p : Path) : str :=
  let nm := name p in
  match PyLib.rfind nm "." with
  | Some i =>
      if (0 <? i) && (i <? length nm - 1) then skipn i nm else []
  | None => []
  end.

(** [path.with_suffix(suffix)] *)
Definition with_suffix (p : Path) (suffix' : str) : res Path :=
  if existsb (Ascii.eqb "/") suffix' then Raise
  else if (negb (Py.eqb suffix' []) && negb (Py.startswith suffix' (lit ".")))
          || Py.eqb suffix' (lit ".") then Raise
  else
    let nm := name p in
    if Py.eqb nm [] then Raise
    else
      let old_suffix := suffix p in
      let nm' :=
        if Py.eqb old_suffix [] then nm ++ suffix'
        else firstn (length nm - length old_suffix) nm ++ suffix' in
      Ok (removelast p ++ [nm']).

(** [dpath / name] for the name of a directory entry *)
Definition child (dpath : Path) (nm : str) : Path := dpath ++ [nm].

End Pathlib.

(** The files of a POSIX system as the programs see them.  A file has a
    number, and a path is one of its names: two paths with the same number
    are hard links or symbolic links to one file, or reach it through a
    linked directory, and what is written through one is read through the
    other.  A path that names no file yet has the number of the file that
    writing to it would create.  The programs make no link and remove
    nothing, so the numbers stay what they are during a run; what a run
    changes is the content of the files.  A file is known by its text when
    its bytes are valid UTF-8, and by its bytes when they are not. *)
Module Disk.

Import Pathlib.

Inductive file : Type :=
| Utf8 (text : str)
| Raw (bytes : str).

Definition inode := nat.

(** How a write to a path ends: it goes through; it is refused before the
    file is opened, with [OSError]; or it breaks after the file is opened,
    with [OSError], and leaves some content in the file. *)
Inductive write_outcome : Type :=
| Written
| Refused
| Broken (remains : file).

(** What a run finds and cannot change. *)
Record system : Type :=
  { file_at : Path -> inode;
    unreadable : Path -> bool;
    on_write : Path -> write_outcome }.

(** The contents of the files; [None] where there is no file. *)
Definition disk := inode -> option file.

Definition store (d : disk) (i : inode) (f : file) : disk :=
  fun j => if Nat.eqb j i then Some f else d j.

Definition bytes_of (f : file) : str :=
  match f with
  | Utf8 text => PyLib.utf8_encode text
  | Raw bytes => bytes
  end.

(** [path.exists()] *)
Definition exists_ (sys : system) (d : disk) (p : Path) : bool :=
  match d (file_at sys p) with Some _ => true | None => false end.

Inductive read_result : Type :=
| Text (s : str)
| UnicodeDecodeError
| OSError.

(** [path.read_text(encoding="utf-8")] *)
Definition read_text_utf8 (sys : system) (d : disk) (p : Path)
  : read_result :=
  if unreadable sys p then OSError
  else
    match d (file_at sys p) with
    | Some (Utf8 text) => Text (PyLib.universal_newlines text)
    | Some (Raw _) => UnicodeDecodeError
    | None => OSError
    end.

(** [path.read_text(encoding="latin-1")]: every byte is a character. *)
Definition read_text_latin1 (sys : system) (d : disk) (p : Path)
  : read_result :=
  if unreadable sys p then OSError
  else
    match d (file_at sys p) with
    | Some f => Text (PyLib.universal_newlines (bytes_of f))
    | None => OSError
    end.

(** The files after a write, and whether it went through. *)
Inductive written : Type :=
| Done (d : disk)
| Failed (d : disk).

(** [path.write_text(content, encoding="utf-8")] *)
Definition write_text (sys : system) (d : disk) (p : Path) (content : str)
  : written :=
  match on_write sys p with
  | Written => Done (store d (file_at sys p) (Utf8 content))
  | Refused => Failed d
  | Broken remains => Failed (store d (file_at sys p) remains)
  end.

End Disk.

(** ** Engine 1: [main] of [fix_pages_paths.py] *)

Module FixPagesPathsMain.

Import Pathlib Disk.

(** The parsed arguments that the loop uses. *)
Record args : Type :=
  { a_repo : str; a_ext : str; a_dry_run : bool; a_no_backup : bool }.

(** [[e.strip() for e in args.ext.split(",") if e.strip()]] *)
Definition exts (a : args) : res (list str) :=
  parts <- Py.split (a_ext a) (lit ",") ;;
  Ok (map Py.strip
          (filter (fun e => negb (Py.eqb (Py.strip e) [])) parts)).

(** A line printed by the loop, as its kind and its arguments. *)
Inductive line : Type :=
| SkipNonUtf8 (fp : Path)
| DryRun (fp : Path) (cnt : Z)
| Updated (fp : Path) (cnt : Z).

Record state : Type :=
  { files_now : disk; total_files : Z; total_changes : Z;
    printed : list line }.

(** How one turn of the loop ends: normally, or by an exception that
    leaves [main]. *)
Inductive outcome : Type :=
| Next (st : state)
| Abort (st : state).

Definition state_of (o : outcome) : state :=
  match o with Next st => st | Abort st => st end.

(** The body of [for fp in sorted(files)]. *)
Definition process (sys : system) (a : args) (repo : str) (fp : Path)
           (st : state) : outcome :=
  if Py.endswith (name fp) (lit ".bak") then Next st
  else
    match read_text_utf8 sys (files_now st) fp with
    | UnicodeDecodeError =>
        Next {| files_now := files_now st;
                total_files := total_files st;
                total_changes := total_changes st;
                printed := printed st ++ [SkipNonUtf8 fp] |}
    | OSError => Abort st
    | Text original =>
        match FixPagesPaths.rewrite_text original repo with
        | Raise => Abort st
        | Ok (updated, cnt) =>
            if (cnt =? 0)%Z then Next st
            else
              let counted (d : disk) (l : list line) :=
                {| files_now := d;
                   total_files := (total_files st + 1)%Z;
                   total_changes := (total_changes st + cnt)%Z;
                   printed := printed st ++ l |} in
              if a_dry_run a then
                Next (counted (files_now st) [DryRun fp cnt])
              else
                let backed_up : written :=
                  if negb (a_no_backup a) then
                    match with_suffix fp (suffix fp ++ lit ".bak") with
                    | Raise => Failed (files_now st)
                    | Ok bak =>
                        if negb (exists_ sys (files_now st) bak)
                        then write_text sys (files_now st) bak original
                        else Done (files_now st)
                    end
                  else Done (files_now st) in
                match backed_up with
                | Failed d => Abort (counted d [])
                | Done d =>
                    match write_text sys d fp updated with
                    | Failed d' => Abort (counted d' [])
                    | Done d' => Next (counted d' [Updated fp cnt])
                    end
                end
        end
    end.

Fixpoint loop (sys : system) (a : args) (repo : str) (files : list Path)
         (st : state) : outcome :=
  match files with
  | [] => Next st
  | fp :: rest =>
      match process sys a repo fp st with
      | Next st' => loop sys a repo rest st'
      | Abort st' => Abort st'
      end
  end.

(** [main] from the computation of [repo] on, over the sorted files that
    the search under the root has found. *)
Definition main (sys : system) (a : args) (files : list Path) (d : disk)
  : outcome :=
  let repo := PyLib.strip_chars (a_repo a) (lit "/") in
  loop sys a repo files
       {| files_now := d; total_files := 0%Z; total_changes := 0%Z;
          printed := [] |}.

End FixPagesPathsMain.

(** ** Engine 2: the rest of [fix_paths.py] *)

Module FixPathsMain.

Import Pathlib Disk.

Definition TEXT_EXTS : list str :=
  [lit ".html"; lit ".htm"; lit ".css"; lit ".js"; lit ".mjs";
   lit ".json"; lit ".xml"; lit ".txt"; lit ".md"; lit ".yml";
   lit ".yaml"; lit ".svg"].

Definition is_probably_text_file (path : Path) : bool :=
  existsb (Py.eqb (Py.lower (suffix path))) TEXT_EXTS.

(** [load_text]: UTF-8, and Latin-1 when that fails. *)
Definition load_text (sys : system) (d : disk) (path : Path)
  : read_result :=
  match read_text_utf8 sys d path with
  | UnicodeDecodeError => read_text_latin1 sys d path
  | r => r
  end.

Definition save_text (sys : system) (d : disk) (path : Path)
           (content : str) : written :=
  write_text sys d path content.

Definition junk_dirs : list str :=
  [lit ".git"; lit "node_modules"; lit ".venv"; lit "venv";
   lit "__pycache__"; lit "dist"; lit "build"].

Definition should_skip_dir (path : Path) : bool :=
  let parts := map Py.lower path in
  existsb (fun x => existsb (Py.eqb x) parts) junk_dirs.

Record args : Type :=
  { a_prefix : list str; a_dry_run : bool; a_no_backup : bool }.

Inductive line : Type :=
| WouldChange (path : Path) (count : Z)
| Changed (path : Path) (count : Z).

Record state : Type :=
  { files_now : disk; scanned : Z; skipped : Z;
    changed_files : list (Path * Z); printed : list line }.

Inductive outcome : Type :=
| Next (st : state)
| Abort (st : state).

Definition state_of (o : outcome) : state :=
  match o with Next st => st | Abort st => st end.

(** The body of [for name in filenames]. *)
Definition process (sys : system) (a : args) (dpath : Path) (nm : str)
           (st : state) : outcome :=
  let path := child dpath nm in
  if negb (is_probably_text_file path) then
    Next {| files_now := files_now st; scanned := scanned st;
            skipped := (skipped st + 1)%Z;
            changed_files := changed_files st; printed := printed st |}
  else
    let scanned := (scanned st + 1)%Z in
    let stop (o : state -> outcome) (d : disk) :=
      o {| files_now := d; scanned := scanned;
           skipped := skipped st;
           changed_files := changed_files st; printed := printed st |} in
    match load_text sys (files_now st) path with
    | UnicodeDecodeError => stop Abort (files_now st)
    | OSError => stop Abort (files_now st)
    | Text original =>
        match FixPaths.apply_replacements original (a_prefix a) with
        | Raise => stop Abort (files_now st)
        | Ok (updated, count) =>
            if (count <=? 0)%Z || Py.eqb updated original
            then stop Next (files_now st)
            else if a_dry_run a then
              Next {| files_now := files_now st; scanned := scanned;
                      skipped := skipped st;
                      changed_files := changed_files st ++ [(path, count)];
                      printed := printed st ++ [WouldChange path count] |}
            else
              let backed_up : written :=
                if negb (a_no_backup a) then
                  match with_suffix path (suffix path ++ lit ".bak") with
                  | Raise => Failed (files_now st)
                  | Ok backup_path =>
                      if negb (exists_ sys (files_now st) backup_path)
                      then write_text sys (files_now st) backup_path
                                      original
                      else Done (files_now st)
                  end
                else Done (files_now st) in
              match backed_up with
              | Failed d => stop Abort d
              | Done d =>
                  match save_text sys d path updated with
                  | Failed d' => stop Abort d'
                  | Done d' =>
                      Next {| files_now := d';
                              scanned := scanned; skipped := skipped st;
                              changed_files :=
                                changed_files st ++ [(path, count)];
                              printed :=
                                printed st ++ [Changed path count] |}
                  end
              end
        end
    end.

Fixpoint for_names (sys : system) (a : args) (dpath : Path)
         (filenames : list str) (st : state) : outcome :=
  match filenames with
  | [] => Next st
  | nm :: rest =>
      match process sys a dpath nm st with
      | Next st' => for_names sys a dpath rest st'
      | Abort st' => Abort st'
      end
  end.

(** The directories under the root as [os.walk] lists them: the file
    names of a directory, and its sub-directories by name. *)
#[warnings="-register-all"]
Inductive dirtree : Type :=
| Dir (filenames : list str) (subdirs : list (str * dirtree)).

(** The loop over [os.walk(root)], top down: a directory to skip is left
    at once and, its [dirnames] emptied, not descended into. *)
Fixpoint walk (sys : system) (a : args) (dpath : Path) (t : dirtree)
         (st : state) : outcome :=
  match t with
  | Dir filenames subdirs =>
      if should_skip_dir dpath then Next st
      else
        match for_names sys a dpath filenames st with
        | Abort st' => Abort st'
        | Next st' =>
            (fix walk_all (l : list (str * dirtree)) (st : state)
               : outcome :=
               match l with
               | [] => Next st
               | (nm, sub) :: l' =>
                   match walk sys a (child dpath nm) sub st with
                   | Abort st'' => Abort st''
                   | Next st'' => walk_all l' st''
                   end
               end) subdirs st'
        end
  end.

(** [main] after the arguments are parsed: the exit code when it returns,
    and the state.  [tree] is [None] when the root does not exist or is
    not a directory. *)
Definition main (sys : system) (a : args) (root : Path)
           (tree : option dirtree) (d : disk) : option Z * state :=
  let st0 := {| files_now := d; scanned := 0%Z; skipped := 0%Z;
                changed_files := []; printed := [] |} in
  match tree with
  | None => (Some 2%Z, st0)
  | Some t =>
      match a_prefix a with
      | [] => (Some 2%Z, st0)
      | _ :: _ =>
          match walk sys a root t st0 with
          | Next st => (Some 0%Z, st)
          | Abort st => (None, st)
          end
      end
  end.

End FixPathsMain.

(** ** The words of the specification, for engine 2 *)

Module Spec.

(** The prefix made slash-delimited on both ends: a slash is prepended if
    missing, and one is appended if missing. *)
Definition slash_delimited (prefix : str) : str :=
  let p := if Py.startswith prefix (lit "/") then prefix
           else lit "/" ++ prefix in
  if Py.endswith p (lit "/") then p else p ++ lit "/".

(** [p] occurs in [s]. *)
Definition occurs (p s : str) : Prop :=
  exists pre post, s = pre ++ p ++ post.

(** One prefix of the list: an empty prefix is passed over; otherwise the
    segments that the current text splits into on the normalized prefix are
    joined again by a single slash, and the count grows by the number of
    segments minus one. *)
Definition strip_prefix (st : str * Z) (prefix : str) : str * Z :=
  match prefix with
  | [] => st
  | _ :: _ =>
      let segments := Py.split_from (slash_delimited prefix) 0 (fst st) in
      (Py.join (lit "/") segments,
       (snd st + (Z.of_nat (length segments) - 1))%Z)
  end.

(** The prefixes are taken in the given order. *)
Definition applyReplacements (text : str) (badPrefixes : list str)
  : str * Z :=
  fold_left strip_prefix badPrefixes (text, 0%Z).

End Spec.

(** ** Notions used in the statements *)

Import FixPagesPaths FixPaths.

(** A string that does not begin with white space. *)
Definition clean_head (s : str) : Prop :=
  match s with
  | c :: _ => Py.isspace c = false
  | [] => True
  end.

(** A prefix that leaves a text alone: the empty one, or one whose
    normalized form does not occur in the text. *)
Definition idle (t prefix : str) : Prop :=
  prefix = [] \/ ~ Spec.occurs (Spec.slash_delimited prefix) t.

(** The look-ahead [(?=/|$)] on what follows a position. *)
Definition ahead_ok (rest : str) : bool :=
  match rest with
  | [] => true
  | x :: rest' =>
      Ascii.eqb "/" x
      || match rest' with [] => Ascii.eqb x "010" | _ :: _ => false end
  end.

(** What follows [/<repo>/Cyb3Raya] in [p] when [p] begins with that
    duplicated segment, at a segment boundary. *)
Definition doubled_rest (repo p : str) : option str :=
  match p with
  | x :: p1 =>
      if Ascii.eqb "/" x && Py.startswith p1 repo then
        let p2 := skipn (length repo) p1 in
        if Py.startswith p2 (lit "/Cyb3Raya") then
          let rest := skipn (length (lit "/Cyb3Raya")) p2 in
          if ahead_ok rest then Some rest else None
        else None
      else None
  | [] => None
  end.

(** The text of a whole match of a three-group pattern. *)
Definition whole (m : Re.Match) : str :=
  Re.m_prefix m ++ Re.m_path m ++ Re.m_suffix m.

(** A captured path that [rewrite_text] leaves as it is: its trimmed form
    is not root-absolute, or [normalize_root_path] returns it unchanged. *)
Definition settled (repo : str) (m : Re.Match) : Prop :=
  (if Py.startswith (Py.strip (Re.m_path m)) (lit "/")
   then normalize_root_path (Re.m_path m) repo
   else Ok (Re.m_path m)) = Ok (Re.m_path m).

(** A string that does not end with white space. *)
Definition clean_last (s : str) : Prop := clean_head (rev s).

(** The repository name of the examples. *)
Definition blog : str := lit "Cyb3Raya-Blog".

(** An attribute with a double-quoted value. *)
Definition attr (name value : str) : str :=
  name ++ lit "=" ++ dquote :: value ++ [dquote].

(** A repository name without a backslash. *)
Definition plain (repo : str) : Prop :=
  existsb (Ascii.eqb backslash) repo = false.

(** The path of the backup of a file: in the same directory, the name of
    the file followed by [.bak]. *)
Definition backup_of (p : Pathlib.Path) : Pathlib.Path :=
  Pathlib.child (removelast p) (Pathlib.name p ++ lit ".bak").

(** A path that [pathlib] can name: its name is not empty and holds no
    slash. *)
Definition named (p : Pathlib.Path) : Prop :=
  Pathlib.name p <> []
  /\ existsb (Ascii.eqb "/") (Pathlib.name p) = false.

(** The files that the loop of engine 1 reads: those whose name does not
    end with [.bak]. *)
Definition inputs (files : list Pathlib.Path) : list Pathlib.Path :=
  filter (fun fp => negb (Py.endswith (Pathlib.name fp) (lit ".bak"))) files.

(** What a run of engine 1 over [files] may do to the contents: a file
    keeps what it held, or it holds something afterwards and either there
    was no file and it is the backup of one of the files read, or it held
    UTF-8 text and is one of the files read. *)
Definition pages_frame (sys : Disk.system) (files : list Pathlib.Path)
           (d d' : Disk.disk) : Prop :=
  forall i,
    d' i = d i
    \/ (d' i <> None
        /\ ((d i = None
             /\ exists fp, In fp (inputs files)
                           /\ Disk.file_at sys (backup_of fp) = i)
            \/ ((exists t, d i = Some (Disk.Utf8 t))
                /\ exists fp, In fp (inputs files)
                              /\ Disk.file_at sys fp = i))).

(** The text that [load_text] of engine 2 gives for a file: the UTF-8
    text, or the bytes read as Latin-1, with universal newlines. *)
Definition decoded (f : Disk.file) : str :=
  match f with
  | Disk.Utf8 text => PyLib.universal_newlines text
  | Disk.Raw bytes => PyLib.universal_newlines bytes
  end.

(** The directory entries that the walk of engine 2 comes to, in its
    order: the file names of every directory that is not skipped. *)
Fixpoint visited (dpath : Pathlib.Path) (t : FixPathsMain.dirtree)
  : list (Pathlib.Path * str) :=
  match t with
  | FixPathsMain.Dir filenames subdirs =>
      if FixPathsMain.should_skip_dir dpath then []
      else
        map (pair dpath) filenames
        ++ (fix all (l : list (str * FixPathsMain.dirtree))
              : list (Pathlib.Path * str) :=
              match l with
              | [] => []
              | (nm, sub) :: l' =>
                  visited (Pathlib.child dpath nm) sub ++ all l'
              end) subdirs
  end.

(** The path of a directory entry. *)
Definition path_of (e : Pathlib.Path * str) : Pathlib.Path :=
  Pathlib.child (fst e) (snd e).



(** The body of the loop of engine 2 over a list of directory entries. *)
Fixpoint run (sys : Disk.system) (a : FixPathsMain.args)
         (entries : list (Pathlib.Path * str))
         (st : FixPathsMain.state) : FixPathsMain.outcome :=
  match entries with
  | [] => FixPathsMain.Next st
  | (dpath, nm) :: rest =>
      match FixPathsMain.process sys a dpath nm st with
      | FixPathsMain.Next st' => run sys a rest st'
      | FixPathsMain.Abort st' => FixPathsMain.Abort st'
      end
  end.

(** What engine 2 reports for a directory entry on a disk: the path and
    the count, when the entry has a text extension, its file is there, and
    the replacements change its text. *)
Definition report_entry (sys : Disk.system) (prefixes : list str)
           (d : Disk.disk) (e : Pathlib.Path * str)
  : list (Pathlib.Path * Z) :=
  if FixPathsMain.is_probably_text_file (path_of e) then
    match d (Disk.file_at sys (path_of e)) with
    | Some f =>
        match apply_replacements (decoded f) prefixes with
        | Ok (updated, count) =>
            if (count <=? 0)%Z || Py.eqb updated (decoded f) then []
            else [(path_of e, count)]
        | Raise => []
        end
    | None => []
    end
  else [].


(** The number of the entries with a text extension. *)
Definition text_entries (entries : list (Pathlib.Path * str)) : Z :=
  Z.of_nat
    (length (filter (fun e => FixPathsMain.is_probably_text_file (path_of e))
                    entries)).

(** What engine 1 counts for a file on a disk: the path and the number
    of fixes, when the name does not end with [.bak], the file is UTF-8
    text, and [rewrite_text] counts a change. *)
Definition fix_of (sys : Disk.system) (repo : str) (d : Disk.disk)
           (fp : Pathlib.Path) : list (Pathlib.Path * Z) :=
  if Py.endswith (Pathlib.name fp) (lit ".bak") then []
  else
    match d (Disk.file_at sys fp) with
    | Some (Disk.Utf8 t) =>
        match rewrite_text (PyLib.universal_newlines t) repo with
        | Ok (_, cnt) => if (cnt =? 0)%Z then [] else [(fp, cnt)]
        | Raise => []
        end
    | _ => []
    end.

Definition fixes (sys : Disk.system) (repo : str) (d : Disk.disk)
           (files : list Pathlib.Path) : list (Pathlib.Path * Z) :=
  flat_map (fix_of sys repo d) files.

(** The sum of the counts of a list of changes. *)
Definition total (l : list (Pathlib.Path * Z)) : Z :=
  fold_right Z.add 0%Z (map snd l).

(** The contents after a write, whether it went through or not. *)
Definition disk_after (w : Disk.written) : Disk.disk :=
  match w with Disk.Done d => d | Disk.Failed d => d end.

(** A path that the system lets a run read and write, and whose backup
    path it lets the run write. *)
Definition usable (sys : Disk.system) (p : Pathlib.Path) : Prop :=
  Disk.unreadable sys p = false
  /\ Disk.on_write sys p = Disk.Written
  /\ Disk.on_write sys (backup_of p) = Disk.Written.

(** The system of the examples: every path is a file of its own, numbered
    by its place in [paths], and every read and write goes through. *)
Definition plain_system (paths : list Pathlib.Path) : Disk.system :=
  {| Disk.file_at :=
       fun p =>
         (fix index (l : list Pathlib.Path) (n : nat) : nat :=
            match l with
            | [] => 0
            | q :: l' => if Pathlib.path_eqb p q then n else index l' (S n)
            end) paths 1;
     Disk.unreadable := fun _ => false;
     Disk.on_write := fun _ => Disk.Written |}.

(** The contents of the examples: the given files, by number. *)
Definition contents (l : list Disk.file) : Disk.disk :=
  fun i => match i with O => None | S n => nth_error l n end.

(** The entries that [main] of engine 2 comes to: none when the root is
    not a directory. *)
Definition walked (root : Pathlib.Path)
           (tree : option FixPathsMain.dirtree)
  : list (Pathlib.Path * str) :=
  match tree with Some t => visited root t | None => [] end.

(** * Properties *)

(** ** Strings *)

Section StringFacts.

Lemma eqb_eq (s t : str) : Py.eqb s t = true <-> s = t.
Proof.
  revert t; induction s as [|c s IH]; intros [|d t]; simpl.
  - split; auto.
  - split; discriminate.
  - split; discriminate.
  - rewrite andb_true_iff, Ascii.eqb_eq, IH. split.
    + intros [-> ->]; reflexivity.
    + intros H; injection H; auto.
Qed.

Lemma eqb_refl (s : str) : Py.eqb s s = true.
Proof. apply eqb_eq; reflexivity. Qed.

Lemma eqb_neq (s t : str) : Py.eqb s t = false <-> s <> t.
Proof.
  rewrite <- eqb_eq. destruct (Py.eqb s t); split; congruence.
Qed.

Lemma startswith_iff (s pre : str) :
  Py.startswith s pre = true <-> exists rest, s = pre ++ rest.
Proof.
  revert s; induction pre as [|d pre IH]; intros s; simpl.
  - split; [intros _; exists s; reflexivity | reflexivity].
  - destruct s as [|c s].
    + split; [discriminate | intros [r H]; discriminate].
    + rewrite andb_true_iff, Ascii.eqb_eq, IH. split.
      * intros [-> [r ->]]; exists r; reflexivity.
      * intros [r H]; injection H as -> ->; split; [reflexivity | exists r; reflexivity].
Qed.

Lemma startswith_app (pre rest : str) : Py.startswith (pre ++ rest) pre = true.
Proof. apply startswith_iff; exists rest; reflexivity. Qed.

Lemma startswith_skipn (s pre : str) :
  Py.startswith s pre = true -> s = pre ++ skipn (length pre) s.
Proof.
  intros H; apply startswith_iff in H; destruct H as [r ->].
  rewrite skipn_app, skipn_all, Nat.sub_diag; reflexivity.
Qed.

Lemma lstrip_clean (s : str) : clean_head (Py.lstrip s).
Proof.
  induction s as [|c s IH]; simpl; auto.
  destruct (Py.isspace c) eqn:E; simpl; auto.
Qed.

Lemma lstrip_fixed (s : str) : clean_head s -> Py.lstrip s = s.
Proof. destruct s as [|c s]; simpl; auto. intros ->; reflexivity. Qed.

Lemma lstrip_idem (s : str) : Py.lstrip (Py.lstrip s) = Py.lstrip s.
Proof. apply lstrip_fixed, lstrip_clean. Qed.

Lemma lstrip_suffix (s : str) :
  exists ws, s = ws ++ Py.lstrip s /\ Forall (fun c => Py.isspace c = true) ws.
Proof.
  induction s as [|c s (ws & E & F)]; simpl.
  - exists []; auto.
  - destruct (Py.isspace c) eqn:Ec.
    + exists (c :: ws); simpl; split; [congruence | auto].
    + exists []; auto.
Qed.

Lemma rstrip_prefix (s : str) :
  exists ws, s = Py.rstrip s ++ ws /\ Forall (fun c => Py.isspace c = true) ws.
Proof.
  unfold Py.rstrip. destruct (lstrip_suffix (rev s)) as (ws & E & F).
  exists (rev ws); split.
  - rewrite <- rev_app_distr, <- E, rev_involutive; reflexivity.
  - apply Forall_rev; assumption.
Qed.

Lemma rstrip_idem (s : str) : Py.rstrip (Py.rstrip s) = Py.rstrip s.
Proof. unfold Py.rstrip. rewrite rev_involutive, lstrip_idem; reflexivity. Qed.

Lemma rstrip_clean_head (s : str) : clean_head s -> clean_head (Py.rstrip s).
Proof.
  intros H. destruct (rstrip_prefix s) as (ws & E & _).
  destruct (Py.rstrip s) as [|c u]; simpl; auto.
  rewrite E in H; exact H.
Qed.

Lemma strip_clean (s : str) : clean_head (Py.strip s).
Proof. apply rstrip_clean_head, lstrip_clean. Qed.

Lemma strip_idem (s : str) : Py.strip (Py.strip s) = Py.strip s.
Proof.
  unfold Py.strip at 1. rewrite (lstrip_fixed _ (strip_clean s)).
  unfold Py.strip. apply rstrip_idem.
Qed.

(** A string that neither begins nor ends with white space is its own
    trimmed form. *)
Lemma strip_fixed (s : str) :
  clean_head s -> clean_head (rev s) -> Py.strip s = s.
Proof.
  intros H1 H2. unfold Py.strip, Py.rstrip.
  rewrite (lstrip_fixed _ H1), (lstrip_fixed _ H2). apply rev_involutive.
Qed.

Lemma strip_clean_last (s : str) : clean_head (rev (Py.strip s)).
Proof.
  unfold Py.strip, Py.rstrip. rewrite rev_involutive. apply lstrip_clean.
Qed.

End StringFacts.

(** ** [replace] and [split] find the same occurrences *)

Section ReplaceSplit.

Lemma split_from_nonempty (sep : str) (k : nat) (s : str) :
  Py.split_from sep k s <> [].
Proof.
  revert k; induction s as [|c s IH]; intros k; simpl; [discriminate|].
  destruct k as [|k]; [|apply IH].
  destruct (Py.startswith (c :: s) sep); [discriminate|].
  specialize (IH 0). destruct (Py.split_from sep 0 s); [contradiction|].
  discriminate.
Qed.

Lemma split_from_length (sep : str) (k : nat) (s : str) :
  1 <= length (Py.split_from sep k s).
Proof.
  pose proof (split_from_nonempty sep k s) as H.
  destruct (Py.split_from sep k s); [contradiction | simpl; lia].
Qed.

Lemma join_cons_head (sep : str) (c : ascii) (l : list str) :
  l <> [] -> Py.join sep (Py.cons_head c l) = c :: Py.join sep l.
Proof. destruct l as [|x [|y l]]; simpl; [contradiction | reflexivity..]. Qed.

Lemma join_nil_head (sep : str) (l : list str) :
  l <> [] -> Py.join sep ([] :: l) = sep ++ Py.join sep l.
Proof. destruct l; [contradiction | reflexivity]. Qed.

Lemma length_cons_head (c : ascii) (l : list str) :
  l <> [] -> length (Py.cons_head c l) = length l.
Proof. destruct l; [contradiction | reflexivity]. Qed.

(** The text after [replace] is the segments of [split] joined by the
    replacement: one replacement is made per separator counted. *)
Lemma replace_from_join (old new : str) (k : nat) (s : str) :
  Py.replace_from old new k s = Py.join new (Py.split_from old k s).
Proof.
  revert k; induction s as [|c s IH]; intros k; simpl; [reflexivity|].
  destruct k as [|k]; [|apply IH].
  destruct (Py.startswith (c :: s) old).
  - rewrite join_nil_head by apply split_from_nonempty. now rewrite IH.
  - rewrite join_cons_head by apply split_from_nonempty. now rewrite IH.
Qed.

Lemma split_from_cons (sep : str) (c : ascii) (s : str) :
  Py.split_from sep 0 (c :: s) =
  if Py.startswith (c :: s) sep
  then [] :: Py.split_from sep (length sep - 1) s
  else Py.cons_head c (Py.split_from sep 0 s).
Proof. reflexivity. Qed.

Lemma occurs_tail (p : str) (c : ascii) (s : str) :
  Spec.occurs p s -> Spec.occurs p (c :: s).
Proof. intros (pre & post & ->). now exists (c :: pre), post. Qed.

Lemma occurs_head (p s : str) :
  Py.startswith s p = true -> Spec.occurs p s.
Proof. intros H; apply startswith_iff in H; destruct H as [r ->]. now exists [], r. Qed.

Lemma split_from_no_occurrence (p s : str) :
  ~ Spec.occurs p s -> Py.split_from p 0 s = [s].
Proof.
  induction s as [|c s IH]; intros H; simpl; [reflexivity|].
  destruct (Py.startswith (c :: s) p) eqn:E.
  - elim H. now apply occurs_head.
  - rewrite IH; [reflexivity|]. intros O; apply H. now apply occurs_tail.
Qed.

Lemma split_from_occurrence (p s : str) :
  Spec.occurs p s -> 2 <= length (Py.split_from p 0 s) \/ p = [].
Proof.
  destruct p as [|d p]; [now right|]. intros H; left.
  revert H; induction s as [|c s IH]; intros (pre & post & H).
  - destruct pre; discriminate.
  - rewrite split_from_cons.
    destruct (Py.startswith (c :: s) (d :: p)) eqn:E.
    + apply le_n_S, split_from_length.
    + rewrite length_cons_head by apply split_from_nonempty.
      apply IH. destruct pre as [|x pre].
      * rewrite H in E. simpl app in E.
        change (d :: p ++ post) with ((d :: p) ++ post) in E.
        rewrite startswith_app in E; discriminate.
      * injection H as _ ->. now exists pre, post.
Qed.

Lemma split_from_skip_cons (sep : str) (k : nat) (c : ascii) (s : str) :
  Py.split_from sep (S k) (c :: s) = Py.split_from sep k s.
Proof. reflexivity. Qed.

(** The segments joined by the separator give the text back. *)
Lemma join_split_from (sep : str) :
  sep <> [] ->
  forall (s : str) (k : nat),
    Py.join sep (Py.split_from sep k s) = skipn k s.
Proof.
  intros Hsep. induction s as [|c s IH]; intros k.
  - now destruct k.
  - destruct k as [|k]; [|rewrite split_from_skip_cons; apply IH].
    rewrite split_from_cons.
    destruct (Py.startswith (c :: s) sep) eqn:E.
    + rewrite join_nil_head by apply split_from_nonempty. rewrite IH.
      apply startswith_iff in E. destruct E as [rest E].
      destruct sep as [|d sep']; [contradiction|].
      injection E as -> ->. cbn [length].
      replace (S (length sep') - 1) with (length sep') by lia.
      rewrite skipn_app, skipn_all, Nat.sub_diag. reflexivity.
    + rewrite join_cons_head by apply split_from_nonempty.
      now rewrite IH.
Qed.

Lemma join_head (sep x : str) (rest : list str) :
  exists t, Py.join sep (x :: rest) = x ++ t.
Proof.
  destruct rest as [|y rest].
  - exists []. simpl. now rewrite app_nil_r.
  - eexists. reflexivity.
Qed.

(** No segment contains the separator. *)
Lemma split_from_free (sep : str) :
  sep <> [] ->
  forall (s : str) (k : nat),
    Forall (fun seg => ~ Spec.occurs sep seg) (Py.split_from sep k s).
Proof.
  intros Hsep. induction s as [|c s IH]; intros k.
  - constructor; [|constructor]. intros (pre & post & E).
    destruct pre; [|discriminate]. destruct sep; [contradiction | discriminate].
  - destruct k as [|k]; [|rewrite split_from_skip_cons; apply IH].
    rewrite split_from_cons.
    destruct (Py.startswith (c :: s) sep) eqn:E.
    + constructor; [|apply IH]. intros (pre & post & E').
      destruct pre; [|discriminate]. destruct sep; [contradiction | discriminate].
    + pose proof (IH 0) as F. pose proof (join_split_from sep Hsep s 0) as J.
      destruct (Py.split_from sep 0 s) as [|x rest];
        [constructor; [|constructor]|].
      * intros (pre & post & E').
        destruct pre as [|y pre].
        -- cbn [app] in E'. destruct sep as [|d sep']; [contradiction|].
           injection E' as <- E'. destruct sep'; [|discriminate].
           cbn [Py.startswith] in E. rewrite Ascii.eqb_refl in E.
           discriminate.
        -- injection E' as _ E'. destruct pre; [|discriminate].
           destruct sep; [contradiction | discriminate].
      * cbn [Py.cons_head]. inversion F as [|? ? Hx Hrest]; subst.
        constructor; [|assumption].
        intros (pre & post & E'). destruct pre as [|y pre].
        -- destruct (join_head sep x rest) as [t Ht].
           cbn [skipn] in J. rewrite Ht in J.
           assert (Py.startswith (c :: s) sep = true) as E2.
           { apply startswith_iff. exists (post ++ t).
             rewrite <- J. cbn [app] in E'.
             change (c :: x ++ t) with ((c :: x) ++ t).
             rewrite E'. now rewrite <- app_assoc. }
           congruence.
        -- injection E' as _ E'. apply Hx. now exists pre, post.
Qed.

Lemma slash_delimited_nonempty (prefix : str) :
  Spec.slash_delimited prefix <> [].
Proof.
  unfold Spec.slash_delimited.
  set (p := if Py.startswith prefix (lit "/") then prefix
            else lit "/" ++ prefix).
  destruct (Py.endswith p (lit "/")) eqn:E.
  - intros ->; discriminate.
  - destruct p; discriminate.
Qed.

End ReplaceSplit.

(** ** Engine 2 follows the specification *)

Section Engine2.

Lemma replace_prefix_spec (st : str * Z) (prefix : str) :
  replace_prefix st prefix = Ok (Spec.strip_prefix st prefix).
Proof.
  destruct st as [t n], prefix as [|c q]; [reflexivity|].
  unfold replace_prefix, Spec.strip_prefix.
  set (p := Spec.slash_delimited (c :: q)).
  assert (Hp : (let p0 := c :: q in
                let p1 := if negb (Py.startswith p0 (lit "/"))
                          then lit "/" ++ p0 else p0 in
                if negb (Py.endswith p1 (lit "/"))
                then p1 ++ lit "/" else p1) = p).
  { unfold p, Spec.slash_delimited. cbv zeta.
    destruct (Py.startswith (c :: q) (lit "/")); cbn [negb];
      match goal with |- context [Py.endswith ?x ?y] =>
        destruct (Py.endswith x y) end; reflexivity. }
  cbv zeta in Hp. cbv zeta. rewrite Hp.
  pose proof (slash_delimited_nonempty (c :: q)) as Hne. fold p in Hne.
  unfold Py.split, Py.replace.
  destruct p as [|d p'] eqn:Ep; [contradiction|].
  cbn [bind fst snd]. rewrite replace_from_join.
  pose proof (split_from_length (d :: p') 0 t).
  rewrite Z.max_r by lia. reflexivity.
Qed.

Lemma for_each_spec (ps : list str) (st : str * Z) :
  for_each ps st = Ok (fold_left Spec.strip_prefix ps st).
Proof.
  revert st; induction ps as [|p ps IH]; intros st; simpl; [reflexivity|].
  rewrite replace_prefix_spec. simpl. apply IH.
Qed.

Lemma strip_prefix_step (t : str) (n : Z) (prefix : str) :
  let st' := Spec.strip_prefix (t, n) prefix in
  (n <= snd st')%Z /\
  (snd st' = n <-> idle t prefix) /\
  (idle t prefix -> fst st' = t).
Proof.
  destruct prefix as [|c q]; cbv zeta.
  - simpl. split; [lia|]. split; [|reflexivity].
    split; [now left | reflexivity].
  - unfold Spec.strip_prefix. cbn [fst snd].
    set (p := Spec.slash_delimited (c :: q)).
    pose proof (split_from_length p 0 t) as Hlen.
    split; [lia|]. split; [split|].
    + intros H. right. intros O. fold p in O.
      destruct (split_from_occurrence _ _ O) as [H2 | H2].
      * lia.
      * now apply (slash_delimited_nonempty (c :: q)).
    + intros [H | H]; [discriminate|].
      fold p in H. rewrite (split_from_no_occurrence _ _ H). simpl. lia.
    + intros [H | H]; [discriminate|].
      fold p in H. rewrite (split_from_no_occurrence _ _ H). reflexivity.
Qed.

Lemma fold_strip_prefix_fixed (ps : list str) (t : str) (n : Z) :
  let st' := fold_left Spec.strip_prefix ps (t, n) in
  (n <= snd st')%Z /\
  (snd st' = n <-> Forall (idle t) ps) /\
  (Forall (idle t) ps -> fst st' = t).
Proof.
  revert t n; induction ps as [|p ps IH]; intros t n; cbv zeta.
  - simpl. split; [lia|]. split; [|reflexivity]. split; [constructor | reflexivity].
  - simpl fold_left.
    destruct (strip_prefix_step t n p) as (S1 & S2 & S3).
    destruct (Spec.strip_prefix (t, n) p) as [t1 n1] eqn:E1.
    cbn [fst snd] in S1, S2, S3.
    destruct (IH t1 n1) as (I1 & I2 & I3).
    split; [lia|]. split; [split|].
    + intros H. assert (n1 = n) as Hn by lia.
      pose proof (proj1 S2 Hn) as Hp. rewrite (S3 Hp) in *.
      constructor; [assumption|]. apply I2. lia.
    + intros H. inversion H as [|? ? Hp Hps]; subst.
      rewrite (S3 Hp) in *. rewrite (proj2 S2 Hp) in *. now apply I2.
    + intros H. inversion H as [|? ? Hp Hps]; subst.
      rewrite (S3 Hp) in *. now apply I3.
Qed.

(** [apply_replacements] reports no replacement exactly when every prefix
    is idle on the text, and it then returns the text as it is. *)
Lemma apply_replacements_idle (t : str) (ps : list str) :
  Forall (idle t) ps <-> apply_replacements t ps = Ok (t, 0%Z).
Proof.
  unfold apply_replacements. rewrite for_each_spec.
  destruct (fold_strip_prefix_fixed ps t 0) as (F1 & F2 & F3).
  destruct (fold_left Spec.strip_prefix ps (t, 0%Z)) as [t' n'] eqn:E.
  cbn [fst snd] in *. split.
  - intros H. rewrite (F3 H), (proj2 F2 H). reflexivity.
  - intros H. injection H as -> ->. now apply F2.
Qed.

Lemma apply_replacements_count_zero (t t' : str) (ps : list str) :
  apply_replacements t ps = Ok (t', 0%Z) -> t' = t /\ Forall (idle t) ps.
Proof.
  unfold apply_replacements. rewrite for_each_spec.
  destruct (fold_strip_prefix_fixed ps t 0) as (F1 & F2 & F3).
  intros H. injection H as H. rewrite H in *. cbn [fst snd] in *.
  pose proof (proj1 F2 eq_refl) as Hi. split; [|assumption].
  now apply F3.
Qed.

End Engine2.

(** ** The matcher consumes what it captures *)

Section Matcher.

Import Re.

Lemma star_sound (A : Type) (P : ascii -> bool) (k : cursor -> option A)
      (aft bef : str) (x : A) :
  star P k bef aft = Some x ->
  exists m c', k c' = Some x /\ aft = m ++ after c'
               /\ before c' = rev m ++ bef.
Proof.
  revert bef; induction aft as [|c aft IH]; intros bef; simpl.
  - intros H. now exists [], {| before := bef; after := [] |}.
  - assert (Here : k {| before := bef; after := c :: aft |} = Some x ->
                   exists m c', k c' = Some x /\ c :: aft = m ++ after c'
                                /\ before c' = rev m ++ bef).
    { intros H. now exists [], {| before := bef; after := c :: aft |}. }
    destruct (P c); [|exact Here].
    destruct (star P k (c :: bef) aft) as [y|] eqn:E; [|exact Here].
    intros H; injection H as ->.
    destruct (IH _ E) as (m & c' & Hk & Ha & Hb).
    exists (c :: m), c'. split; [assumption|]. split.
    + simpl; congruence.
    + rewrite Hb. simpl. now rewrite <- app_assoc.
Qed.

Lemma rmatch_sound (r : regex) :
  forall (A : Type) (c : cursor) (k : cursor -> option A) (x : A),
    rmatch r c k = Some x ->
    exists m c', k c' = Some x /\ after c = m ++ after c'
                 /\ before c' = rev m ++ before c.
Proof.
  induction r as [|P|r1 IH1 r2 IH2|r1 IH1 r2 IH2|P| | | |r1 IH1];
    intros A c k x; simpl.
  - intros H. now exists [], c.
  - destruct (after c) as [|y aft] eqn:Ea; [discriminate|].
    destruct (P y); [|discriminate]. intros H.
    now exists [y], {| before := y :: before c; after := aft |}.
  - intros H. destruct (IH1 _ _ _ _ H) as (m1 & c1 & H1 & Ha1 & Hb1).
    destruct (IH2 _ _ _ _ H1) as (m2 & c2 & H2 & Ha2 & Hb2).
    exists (m1 ++ m2), c2. split; [assumption|]. split.
    + rewrite Ha1, Ha2. now rewrite app_assoc.
    + rewrite Hb2, Hb1, rev_app_distr. now rewrite app_assoc.
  - destruct (rmatch r1 c k) as [y|] eqn:E.
    + intros H; injection H as ->. now apply IH1.
    + apply IH2.
  - apply star_sound.
  - destruct (before c) eqn:Eb; [|discriminate]. intros H.
    exists [], c. rewrite Eb. auto.
  - destruct (at_end c); [|discriminate]. intros H. now exists [], c.
  - destruct (at_boundary c); [|discriminate]. intros H. now exists [], c.
  - destruct (rmatch r1 c (fun _ => Some tt)); [|discriminate].
    intros H. now exists [], c.
Qed.

Lemma capture_app (c c' : cursor) (m : str) :
  after c = m ++ after c' -> capture c c' = m.
Proof.
  intros H. unfold capture. rewrite H, length_app.
  replace (length m + length (after c') - length (after c'))
    with (length m) by lia.
  rewrite firstn_app, Nat.sub_diag, firstn_all. simpl. apply app_nil_r.
Qed.

Lemma match0_sound (r : regex) (c : cursor) (g : str) (c' : cursor) :
  match0 r c = Some (g, c') -> after c = g ++ after c'.
Proof.
  unfold match0. intros H.
  destruct (rmatch_sound _ _ _ _ _ H) as (m & c1 & Hk & Ha & _).
  injection Hk as <- <-. now rewrite (capture_app _ _ _ Ha).
Qed.

(** The text of a whole match, [m.group(0)]. *)
Lemma match3_sound (p : pattern3) (c : cursor) (m : Match) (c' : cursor) :
  match3 p c = Some (m, c') -> after c = whole m ++ after c'.
Proof.
  unfold match3. intros H.
  destruct (rmatch_sound _ _ _ _ _ H) as (m1 & c1 & H1 & Ha1 & _).
  destruct (rmatch_sound _ _ _ _ _ H1) as (m2 & c2 & H2 & Ha2 & _).
  destruct (rmatch_sound _ _ _ _ _ H2) as (m3 & c3 & H3 & Ha3 & _).
  injection H3 as <- <-. unfold whole. simpl.
  rewrite (capture_app _ _ _ Ha1), (capture_app _ _ _ Ha2), (capture_app _ _ _ Ha3).
  rewrite Ha1, Ha2, Ha3. now rewrite <- !app_assoc.
Qed.

Lemma star_progress (A : Type) (P : ascii -> bool) (k : cursor -> option A)
      (aft bef : str) (x : A) :
  star P k bef aft = Some x ->
  exists c', k c' = Some x /\ length (after c') <= length aft.
Proof.
  intros H. destruct (star_sound _ _ _ _ _ _ H) as (m & c' & Hk & -> & _).
  exists c'. split; [assumption|]. rewrite length_app. lia.
Qed.

Lemma rmatch_progress (r : regex) :
  forall (A : Type) (c : cursor) (k : cursor -> option A) (x : A),
    rmatch r c k = Some x ->
    exists c', k c' = Some x
               /\ length (after c') + min_len r <= length (after c).
Proof.
  induction r as [|P|r1 IH1 r2 IH2|r1 IH1 r2 IH2|P| | | |r1 IH1];
    intros A c k x; cbn [rmatch min_len].
  - intros H. exists c. split; [assumption | lia].
  - destruct (after c) as [|y aft] eqn:Ea; [discriminate|].
    destruct (P y); [|discriminate]. intros H.
    eexists; split; [exact H|]. cbn [after length]. lia.
  - intros H. destruct (IH1 _ _ _ _ H) as (c1 & H1 & L1).
    destruct (IH2 _ _ _ _ H1) as (c2 & H2 & L2).
    exists c2. split; [assumption | lia].
  - destruct (rmatch r1 c k) as [y|] eqn:E.
    + intros H; injection H as ->.
      destruct (IH1 _ _ _ _ E) as (c1 & H1 & L1).
      exists c1. split; [assumption | lia].
    + intros H. destruct (IH2 _ _ _ _ H) as (c2 & H2 & L2).
      exists c2. split; [assumption | lia].
  - intros H. destruct (star_progress _ _ _ _ _ _ H) as (c' & Hk & L).
    exists c'. split; [assumption | lia].
  - destruct (before c); [|discriminate]. intros H.
    exists c. split; [assumption | lia].
  - destruct (at_end c); [|discriminate]. intros H.
    exists c. split; [assumption | lia].
  - destruct (at_boundary c); [|discriminate]. intros H.
    exists c. split; [assumption | lia].
  - destruct (rmatch r1 c (fun _ => Some tt)); [|discriminate].
    intros H. exists c. split; [assumption | lia].
Qed.

(** No match of the two compiled patterns, nor of the duplicated-segment
    pattern, is empty: [sub_scan] never meets an empty match. *)
Lemma match3_nonempty (p : pattern3) (c : cursor) (m : Match) (c' : cursor) :
  1 <= min_len (g_prefix p) + min_len (g_path p) + min_len (g_suffix p) ->
  match3 p c = Some (m, c') ->
  length (after c') < length (after c).
Proof.
  unfold match3. intros L H.
  destruct (rmatch_progress _ _ _ _ _ H) as (c1 & H1 & L1).
  destruct (rmatch_progress _ _ _ _ _ H1) as (c2 & H2 & L2).
  destruct (rmatch_progress _ _ _ _ _ H2) as (c3 & H3 & L3).
  injection H3 as _ <-. lia.
Qed.

Lemma attr_match_nonempty (c : cursor) (m : Match) (c' : cursor) :
  match3 ATTR_PATTERN c = Some (m, c') ->
  length (after c') < length (after c).
Proof. apply match3_nonempty. cbn. lia. Qed.

Lemma css_match_nonempty (c : cursor) (m : Match) (c' : cursor) :
  match3 CSS_URL_PATTERN c = Some (m, c') ->
  length (after c') < length (after c).
Proof. apply match3_nonempty. cbn. lia. Qed.

Lemma doubled_match_nonempty (repo : str) (c : cursor) (g : str)
      (c' : cursor) :
  match0 (doubled_prefix repo) c = Some (g, c') ->
  length (after c') < length (after c).
Proof.
  unfold match0. intros H.
  destruct (rmatch_progress _ _ _ _ _ H) as (c1 & H1 & L1).
  injection H1 as _ <-. cbn [doubled_prefix min_len chr] in L1. lia.
Qed.

Lemma lits_match (A : Type) (s : str) (k : cursor -> option A) :
  forall c,
    rmatch (lits s) c k =
    if Py.startswith (after c) s
    then k {| before := rev s ++ before c;
              after := skipn (length s) (after c) |}
    else None.
Proof.
  induction s as [|d s IH]; intros c.
  - simpl. now destruct c.
  - cbn [lits rmatch chr Py.startswith].
    destruct (after c) as [|y aft] eqn:Ea; [reflexivity|].
    rewrite (Ascii.eqb_sym y d).
    destruct (Ascii.eqb d y) eqn:E; [|reflexivity].
    apply Ascii.eqb_eq in E; subst y. rewrite IH. cbn [after before andb].
    destruct (Py.startswith aft s); [|reflexivity].
    cbn [rev skipn length]. now rewrite <- app_assoc.
Qed.

End Matcher.

(** ** [sub] on a text whose matches are replaced by themselves *)

Section Sub.

Import Re.

Context {M St : Type}.
Variable mt : cursor -> option (M * cursor).
Variable group0 : M -> str.
Hypothesis mt_sound :
  forall c m c', mt c = Some (m, c') -> after c = group0 m ++ after c'.
Variable repl : M -> St -> res (str * St).

Lemma sub_scan_nil (k : nat) (bef : str) (s : St) :
  sub_scan mt repl k bef [] s = Ok ([], s).
Proof. reflexivity. Qed.

Lemma sub_scan_skip (k : nat) (bef : str) (c : ascii) (aft : str) (s : St) :
  sub_scan mt repl (S k) bef (c :: aft) s = sub_scan mt repl k (c :: bef) aft s.
Proof. reflexivity. Qed.

Lemma sub_scan_try (bef : str) (c : ascii) (aft : str) (s : St) :
  sub_scan mt repl 0 bef (c :: aft) s =
  let copy := '(rest, s') <- sub_scan mt repl 0 (c :: bef) aft s ;;
              Ok (c :: rest, s') in
  match mt {| before := bef; after := c :: aft |} with
  | Some (m, c') =>
      match length (c :: aft) - length (after c') with
      | S n =>
          '(new, s1) <- repl m s ;;
          '(rest, s2) <- sub_scan mt repl n (c :: bef) aft s1 ;;
          Ok (new ++ rest, s2)
      | O => copy
      end
  | None => copy
  end.
Proof. reflexivity. Qed.

Lemma scan_matches_try (bef : str) (c : ascii) (aft : str) :
  scan_matches mt 0 bef (c :: aft) =
  match mt {| before := bef; after := c :: aft |} with
  | Some (m, c') =>
      match length (c :: aft) - length (after c') with
      | S n => m :: scan_matches mt n (c :: bef) aft
      | O => scan_matches mt 0 (c :: bef) aft
      end
  | None => scan_matches mt 0 (c :: bef) aft
  end.
Proof. reflexivity. Qed.

(** After a match of [n+1] characters at the head of [c :: aft], passing
    over [n] characters of [aft] leaves what follows the match. *)
Lemma match_tail (c : ascii) (aft g rest : str) (n : nat) :
  c :: aft = g ++ rest ->
  length (c :: aft) - length rest = S n ->
  g ++ skipn n aft = c :: aft /\ skipn n aft = rest /\ length g = S n.
Proof.
  intros H L. assert (Lg : length g = S n).
  { rewrite H, length_app in L. lia. }
  destruct g as [|d g]; [discriminate|]. injection H as -> ->.
  injection Lg as Lg.
  assert (skipn n (g ++ rest) = rest) as E.
  { rewrite skipn_app, skipn_all2 by lia.
    replace (n - length g) with 0 by lia. reflexivity. }
  rewrite E. repeat split; simpl; congruence.
Qed.

(** [sub] returns a result when the replacement function always does. *)
Lemma sub_scan_total :
  (forall m s, exists o s', repl m s = Ok (o, s')) ->
  forall aft k bef s, exists o s', sub_scan mt repl k bef aft s = Ok (o, s').
Proof.
  intros Hr. induction aft as [|c aft IH]; intros k bef s.
  - rewrite sub_scan_nil. eauto.
  - destruct k as [|k]; [|rewrite sub_scan_skip; apply IH].
    rewrite sub_scan_try. cbv zeta.
    assert (Copy : exists o s',
               ('(rest, s0) <- sub_scan mt repl 0 (c :: bef) aft s ;;
                Ok (c :: rest, s0)) = Ok (o, s')).
    { destruct (IH 0 (c :: bef) s) as (o & s' & ->). cbn [bind]. eauto. }
    destruct (mt {| before := bef; after := c :: aft |}) as [[m c']|];
      [|exact Copy].
    destruct (length (c :: aft) - length (after c')) as [|n]; [exact Copy|].
    destruct (Hr m s) as (new & s1 & ->). cbn [bind].
    destruct (IH n (c :: bef) s1) as (o & s' & ->). cbn [bind]. eauto.
Qed.

Lemma sub_scan_fixed (s : St) :
  forall aft k bef,
    Forall (fun m => repl m s = Ok (group0 m, s)) (scan_matches mt k bef aft) ->
    sub_scan mt repl k bef aft s = Ok (skipn k aft, s).
Proof.
  induction aft as [|c aft IH]; intros k bef F.
  - rewrite sub_scan_nil. now destruct k.
  - destruct k as [|k].
    + rewrite sub_scan_try. rewrite scan_matches_try in F. cbv zeta.
      destruct (mt {| before := bef; after := c :: aft |})
        as [[m c']|] eqn:E.
      * destruct (length (c :: aft) - length (after c')) as [|n] eqn:EL.
        -- rewrite (IH 0 _ F). reflexivity.
        -- inversion F as [|? ? Hm Hrest]; subst.
           rewrite Hm. cbn [bind]. rewrite (IH n _ Hrest). cbn [bind].
           pose proof (mt_sound _ _ _ E) as Hs. cbn [after] in Hs.
           destruct (match_tail _ _ _ _ _ Hs EL) as (H1 & _ & _).
           now rewrite H1.
      * rewrite (IH 0 _ F). reflexivity.
    + rewrite sub_scan_skip. apply IH. exact F.
Qed.

(** A pattern anchored at the start of the subject matches nowhere else. *)
Hypothesis anchored : forall c, before c <> [] -> mt c = None.

Lemma scan_matches_anchored :
  forall aft k bef, bef <> [] -> scan_matches mt k bef aft = [].
Proof.
  induction aft as [|c aft IH]; intros k bef Hb; [reflexivity|].
  destruct k as [|k].
  - rewrite scan_matches_try, anchored by assumption.
    apply IH; discriminate.
  - simpl. apply IH; discriminate.
Qed.

Lemma sub_anchored (text : str) (s : St) :
  sub mt repl text s =
  match mt {| before := []; after := text |} with
  | Some (m, c') =>
      match length text - length (after c') with
      | S n => '(new, s1) <- repl m s ;; Ok (new ++ after c', s1)
      | O => Ok (text, s)
      end
  | None => Ok (text, s)
  end.
Proof.
  unfold sub. destruct text as [|c aft].
  - rewrite sub_scan_nil. destruct (mt _) as [[m c']|]; reflexivity.
  - rewrite sub_scan_try. cbv zeta.
    assert (Hcopy : forall k s0,
               sub_scan mt repl k [c] aft s0 = Ok (skipn k aft, s0)).
    { intros k s0. apply sub_scan_fixed.
      rewrite scan_matches_anchored by discriminate. constructor. }
    rewrite (Hcopy 0). cbn [bind skipn].
    destruct (mt {| before := []; after := c :: aft |})
      as [[m c']|] eqn:E; [|reflexivity].
    destruct (length (c :: aft) - length (after c')) as [|n] eqn:EL;
      [reflexivity|].
    destruct (repl m s) as [[new s1]|]; [|reflexivity].
    cbn [bind]. rewrite Hcopy. cbn [bind].
    pose proof (mt_sound _ _ _ E) as Hs. cbn [after] in Hs.
    destruct (match_tail _ _ _ _ _ Hs EL) as (_ & H2 & _).
    now rewrite H2.
Qed.

End Sub.

(** ** The duplicated-segment pattern of [normalize_root_path] *)

Section Doubled.

Import Re.

Lemma expand_literal (s g : str) : expand (map Lit s) g = s.
Proof. induction s as [|c s IH]; simpl; congruence. Qed.

Lemma compile_plain (repo : str) :
  plain repo -> compile_template (lit "/" ++ repo) = Ok (map Lit (lit "/" ++ repo)).
Proof.
  unfold plain, compile_template. intros H.
  change (lit "/" ++ repo) with ("/"%char :: repo). cbn [existsb].
  rewrite H. reflexivity.
Qed.

Lemma ahead_match (b rest : str) :
  rmatch (Alt (chr "/") Eol) {| before := b; after := rest |}
         (fun _ => Some tt)
  = if ahead_ok rest then Some tt else None.
Proof.
  destruct rest as [|y [|z r]];
    cbn [rmatch chr after at_end ahead_ok]; try reflexivity;
    destruct (Ascii.eqb "/" y); cbn [orb]; reflexivity.
Qed.

Lemma doubled_rest_spec (repo p rest : str) :
  doubled_rest repo p = Some rest <->
  p = lit "/" ++ repo ++ lit "/Cyb3Raya" ++ rest /\ ahead_ok rest = true.
Proof.
  unfold doubled_rest. split.
  - destruct p as [|x p1]; [discriminate|].
    destruct (Ascii.eqb "/" x) eqn:Ex; [|discriminate]. cbn [andb].
    destruct (Py.startswith p1 repo) eqn:E1; [|discriminate]. cbv zeta.
    destruct (Py.startswith (skipn (length repo) p1) (lit "/Cyb3Raya"))
      eqn:E2; [|discriminate].
    destruct (ahead_ok _) eqn:E3; [|discriminate].
    intros H; injection H as <-. split; [|assumption].
    apply Ascii.eqb_eq in Ex; subst x.
    apply startswith_skipn in E1. apply startswith_skipn in E2.
    rewrite E1 at 1. rewrite E2 at 1. reflexivity.
  - intros [-> Ha]. change (lit "/" ++ ?x) with ("/"%char :: x).
    cbn beta iota. rewrite Ascii.eqb_refl, startswith_app. cbn [andb].
    cbv zeta. rewrite skipn_app, skipn_all, Nat.sub_diag. cbn [app skipn].
    rewrite startswith_app.
    rewrite skipn_app, skipn_all, Nat.sub_diag. cbn [app skipn].
    now rewrite Ha.
Qed.

Lemma rmatch_seq (A : Type) (r1 r2 : regex) (c : cursor)
      (k : cursor -> option A) :
  rmatch (Seq r1 r2) c k = rmatch r1 c (fun c1 => rmatch r2 c1 k).
Proof. reflexivity. Qed.

Lemma rmatch_bol (A : Type) (c : cursor) (k : cursor -> option A) :
  rmatch Bol c k = match before c with [] => k c | _ :: _ => None end.
Proof. reflexivity. Qed.

Lemma rmatch_chr (A : Type) (P : ascii -> bool) (c : cursor)
      (k : cursor -> option A) :
  rmatch (Chr P) c k =
  match after c with
  | x :: aft' =>
      if P x then k {| before := x :: before c; after := aft' |} else None
  | [] => None
  end.
Proof. reflexivity. Qed.

Lemma rmatch_ahead (A : Type) (r : regex) (c : cursor)
      (k : cursor -> option A) :
  rmatch (Ahead r) c k =
  match rmatch r c (fun _ => Some tt) with
  | Some _ => k c
  | None => None
  end.
Proof. reflexivity. Qed.

Lemma rmatch_doubled (A : Type) (k : cursor -> option A) (repo p : str) :
  rmatch (doubled_prefix repo) {| before := []; after := p |} k =
  match doubled_rest repo p with
  | Some rest =>
      k {| before := rev (lit "/Cyb3Raya") ++ rev repo ++ ["/"%char];
           after := rest |}
  | None => None
  end.
Proof.
  unfold doubled_prefix, doubled_rest.
  rewrite rmatch_seq, rmatch_bol. cbn [before].
  rewrite rmatch_seq. unfold chr at 1. rewrite rmatch_chr. cbn [after before].
  destruct p as [|x p1]; [reflexivity|].
  destruct (Ascii.eqb "/" x) eqn:Ex; cbn [andb]; [|reflexivity].
  apply Ascii.eqb_eq in Ex; subst x.
  rewrite rmatch_seq, lits_match. cbn [after before].
  destruct (Py.startswith p1 repo); [|reflexivity].
  rewrite rmatch_seq, lits_match. cbn [after before]. cbv zeta.
  destruct (Py.startswith (skipn (length repo) p1) (lit "/Cyb3Raya"));
    [|reflexivity].
  rewrite rmatch_ahead, ahead_match.
  destruct (ahead_ok _); reflexivity.
Qed.

Lemma match0_doubled (repo p : str) :
  match doubled_rest repo p with
  | Some rest =>
      exists c',
        match0 (doubled_prefix repo) {| before := []; after := p |}
        = Some (lit "/" ++ repo ++ lit "/Cyb3Raya", c')
        /\ after c' = rest
  | None =>
      match0 (doubled_prefix repo) {| before := []; after := p |} = None
  end.
Proof.
  unfold match0. rewrite rmatch_doubled.
  destruct (doubled_rest repo p) as [rest|] eqn:D; [|reflexivity].
  apply doubled_rest_spec in D. destruct D as [-> Ha].
  eexists; split.
  - f_equal. apply f_equal2; [|reflexivity].
    apply capture_app. cbn [after]. now rewrite <- !app_assoc.
  - reflexivity.
Qed.

Lemma doubled_anchored (repo : str) (c : cursor) :
  before c <> [] -> match0 (doubled_prefix repo) c = None.
Proof.
  intros H. unfold match0, doubled_prefix. cbn [rmatch].
  destruct (before c); [contradiction | reflexivity].
Qed.

(** [re.sub] with the duplicated-segment pattern rewrites at most the head
    of the path. *)
Lemma sub_template_doubled (repo repl p : str) :
  sub_template (doubled_prefix repo) repl p =
  tpl <- compile_template repl ;;
  Ok (match doubled_rest repo p with
      | Some rest => expand tpl (lit "/" ++ repo ++ lit "/Cyb3Raya") ++ rest
      | None => p
      end).
Proof.
  unfold sub_template. destruct (compile_template repl) as [tpl|];
    [|reflexivity]. cbn [bind].
  rewrite (sub_anchored (match0 (doubled_prefix repo)) (fun g => g)
             (match0_sound (doubled_prefix repo)) _
             (doubled_anchored repo)).
  pose proof (match0_doubled repo p) as H.
  destruct (doubled_rest repo p) as [rest|] eqn:D.
  - destruct H as (c' & -> & Hc). apply doubled_rest_spec in D.
    destruct D as [Hp _].
    assert (L : length p - length (after c')
                = S (length (repo ++ lit "/Cyb3Raya"))).
    { rewrite Hc, Hp. change (lit "/" ++ ?x) with ("/"%char :: x).
      cbn [length]. rewrite app_assoc, length_app. lia. }
    rewrite L. cbn [bind]. now rewrite Hc.
  - rewrite H. reflexivity.
Qed.

End Doubled.

(** ** The branches of [normalize_root_path] *)

Section Normalize.

Variable repo : str.

(** The function with its call of [re.sub] worked out. *)
Lemma normalize_cases (path : str) :
  normalize_root_path path repo =
  let p := Py.strip path in
  if negb (Py.startswith p (lit "/")) then Ok path
  else if is_external p then Ok path
  else
    let good := lit "/" ++ repo in
    if Py.eqb p good || Py.startswith p (good ++ lit "/") then
      tpl <- Re.compile_template (lit "/" ++ repo) ;;
      Ok (match doubled_rest repo p with
          | Some rest =>
              Re.expand tpl (lit "/" ++ repo ++ lit "/Cyb3Raya") ++ rest
          | None => p
          end)
    else if Py.eqb p (lit "/Cyb3Raya") || Py.startswith p (lit "/Cyb3Raya/")
    then
      let remainder := skipn (length (lit "/Cyb3Raya")) p in
      let remainder :=
        if Py.eqb remainder [] then lit "/" else remainder in
      Ok (lit "/" ++ repo ++ remainder)
    else Ok (lit "/" ++ repo ++ p).
Proof.
  unfold normalize_root_path. rewrite sub_template_doubled. reflexivity.
Qed.

Lemma is_external_strip (url : str) :
  is_external (Py.strip url) = is_external url.
Proof. unfold is_external. now rewrite strip_idem. Qed.

Lemma normalize_not_root (path : str) :
  Py.startswith (Py.strip path) (lit "/") = false ->
  normalize_root_path path repo = Ok path.
Proof. intros H. unfold normalize_root_path. now rewrite H. Qed.

Lemma normalize_external (path : str) :
  is_external path = true -> normalize_root_path path repo = Ok path.
Proof.
  intros H. unfold normalize_root_path.
  destruct (Py.startswith (Py.strip path) (lit "/")); [|reflexivity].
  cbn [negb]. now rewrite is_external_strip, H.
Qed.


(** With a repository name without a backslash the classifier returns a
    result for every path. *)
Lemma normalize_total (path : str) :
  plain repo -> exists r, normalize_root_path path repo = Ok r.
Proof.
  intros Hp. rewrite normalize_cases. cbv zeta.
  rewrite (compile_plain _ Hp). cbn [bind].
  repeat match goal with
         | |- context [if ?b then _ else _] => destruct b
         end; eexists; reflexivity.
Qed.

(** A path with the good prefix, under a repository name that the
    replacement template takes literally. *)
Lemma normalize_prefixed (path : str) :
  plain repo ->
  Py.startswith (Py.strip path) (lit "/") = true ->
  is_external (Py.strip path) = false ->
  Py.strip path = lit "/" ++ repo
  \/ Py.startswith (Py.strip path) ((lit "/" ++ repo) ++ lit "/") = true ->
  normalize_root_path path repo =
  Ok (match doubled_rest repo (Py.strip path) with
      | Some rest => (lit "/" ++ repo) ++ rest
      | None => Py.strip path
      end).
Proof.
  intros Hp H1 H2 Hg. rewrite normalize_cases. cbv zeta.
  rewrite H1, H2. cbn [negb].
  assert (G : Py.eqb (Py.strip path) (lit "/" ++ repo)
              || Py.startswith (Py.strip path) ((lit "/" ++ repo) ++ lit "/")
              = true).
  { destruct Hg as [Hg | Hg].
    - rewrite Hg at 1. now rewrite eqb_refl.
    - rewrite Hg. apply orb_true_r. }
  rewrite G, (compile_plain _ Hp). cbn [bind].
  now rewrite expand_literal.
Qed.

End Normalize.

(** ** Paths that carry the prefix, and a second call *)

Section SecondCall.

Variable repo : str.
Hypothesis repo_plain : plain repo.

Lemma clean_last_app (a b : str) :
  b <> [] -> clean_last b -> clean_last (a ++ b).
Proof.
  unfold clean_last. intros Hb H. rewrite rev_app_distr.
  destruct (rev b) as [|c u] eqn:E; [|exact H].
  apply (f_equal (@rev ascii)) in E. rewrite rev_involutive in E.
  contradiction.
Qed.

Lemma clean_last_suffix (a b : str) :
  b <> [] -> clean_last (a ++ b) -> clean_last b.
Proof.
  unfold clean_last. intros Hb H. rewrite rev_app_distr in H.
  destruct (rev b) as [|c u] eqn:E; [|exact H].
  apply (f_equal (@rev ascii)) in E. rewrite rev_involutive in E.
  contradiction.
Qed.

Lemma ahead_ok_cases (rest : str) :
  ahead_ok rest = true ->
  rest = [] \/ Py.startswith rest (lit "/") = true \/ rest = ["010"%char].
Proof.
  destruct rest as [|x rest']; [now left|]. cbn [ahead_ok].
  rewrite orb_true_iff. intros [H | H].
  - right; left. apply Ascii.eqb_eq in H; subst x. reflexivity.
  - right; right. destruct rest'; [|discriminate].
    apply Ascii.eqb_eq in H; now subst x.
Qed.

Lemma prefixed_root (r : str) :
  r = lit "/" ++ repo \/ Py.startswith r ((lit "/" ++ repo) ++ lit "/") = true ->
  Py.startswith r (lit "/") = true.
Proof.
  intros [-> | H]; [reflexivity|].
  apply startswith_iff in H. destruct H as [x ->]. reflexivity.
Qed.

(** C6 for a repository name without a backslash: a trimmed path with
    the duplicated segment loses it, and any other path with the
    [/<repo>] prefix is returned as its trimmed form. *)
Lemma prefixed_path_kept (path : str) :
  is_external (Py.strip path) = false ->
  (forall rest,
      Py.strip path = lit "/" ++ repo ++ lit "/Cyb3Raya" ++ rest ->
      rest = [] \/ Py.startswith rest (lit "/") = true ->
      normalize_root_path path repo = Ok (lit "/" ++ repo ++ rest))
  /\ (Py.strip path = lit "/" ++ repo
      \/ Py.startswith (Py.strip path) (lit "/" ++ repo ++ lit "/") = true ->
      (forall rest,
          Py.strip path = lit "/" ++ repo ++ lit "/Cyb3Raya" ++ rest ->
          rest <> [] /\ Py.startswith rest (lit "/") = false) ->
      normalize_root_path path repo = Ok (Py.strip path)).
Proof.
  intros Hext. split.
  - intros rest Hp Hrest.
    assert (Hg : Py.startswith (Py.strip path) ((lit "/" ++ repo) ++ lit "/")
                 = true).
    { rewrite Hp. apply startswith_iff. exists (lit "Cyb3Raya" ++ rest).
      cbn. rewrite <- !app_assoc. reflexivity. }
    rewrite (normalize_prefixed repo path repo_plain
               (prefixed_root _ (or_intror Hg)) Hext (or_intror Hg)).
    assert (D : doubled_rest repo (Py.strip path) = Some rest).
    { apply doubled_rest_spec. split; [assumption|].
      destruct Hrest as [-> | H]; [reflexivity|].
      apply startswith_iff in H. destruct H as [x ->]. reflexivity. }
    rewrite D. reflexivity.
  - intros Hg Hno.
    change (lit "/" ++ repo ++ lit "/") with ((lit "/" ++ repo) ++ lit "/")
      in Hg.
    rewrite (normalize_prefixed repo path repo_plain
               (prefixed_root _ Hg) Hext Hg).
    destruct (doubled_rest repo (Py.strip path)) as [rest|] eqn:D;
      [|reflexivity].
    apply doubled_rest_spec in D. destruct D as [Hp Ha].
    destruct (Hno rest Hp) as [Hne Hns].
    destruct (ahead_ok_cases _ Ha) as [H | [H | H]].
    + contradiction.
    + congruence.
    + pose proof (strip_clean_last path) as Hc. fold (clean_last (Py.strip path)) in Hc.
      rewrite Hp, H in Hc.
      change (lit "/" ++ repo ++ lit "/Cyb3Raya" ++ ["010"%char])
        with (lit "/" ++ (repo ++ lit "/Cyb3Raya" ++ ["010"%char])) in Hc.
      rewrite !app_assoc in Hc.
      apply clean_last_suffix in Hc; [discriminate Hc | discriminate].
Qed.

(** A trimmed, well-prefixed path without the duplicated segment is
    returned as it is. *)
Lemma settled_path (r : str) :
  Py.strip r = r ->
  r = lit "/" ++ repo \/ Py.startswith r ((lit "/" ++ repo) ++ lit "/") = true ->
  doubled_rest repo r = None ->
  normalize_root_path r repo = Ok r.
Proof.
  intros Hs Hg Hd. destruct (is_external r) eqn:Hext.
  - now apply normalize_external.
  - rewrite <- Hs in Hg, Hext.
    rewrite (normalize_prefixed repo r repo_plain
               (prefixed_root _ Hg) Hext Hg).
    now rewrite Hs, Hd.
Qed.

Lemma trimmed_result (t : str) :
  clean_last repo -> t = [] \/ clean_last t ->
  Py.strip (lit "/" ++ repo ++ t) = lit "/" ++ repo ++ t.
Proof.
  intros Hr Ht. apply strip_fixed; [reflexivity|].
  fold (clean_last (lit "/" ++ repo ++ t)).
  destruct t as [|c t].
  - rewrite app_nil_r. destruct repo as [|d q] eqn:E; [reflexivity|].
    apply clean_last_app; [discriminate | assumption].
  - destruct Ht as [Ht | Ht]; [discriminate|].
    rewrite app_assoc. apply clean_last_app; [discriminate | assumption].
Qed.

End SecondCall.

(** ** Engine 1: the text rewriter *)

Section Rewriter.

Import Re.

Variable repo : str.

Lemma repl_css_attr : repl_css = repl_attr.
Proof. reflexivity. Qed.

Lemma repl_attr_settled (m : Match) (count : Z) :
  settled repo m -> repl_attr repo m count = Ok (whole m, count).
Proof.
  unfold settled, repl_attr. intros ->. cbn [bind].
  now rewrite eqb_refl.
Qed.

(** Each call of the closure either leaves the match and the count as they
    are, or counts one change. *)
Lemma repl_attr_inv (m : Match) (count : Z) (out : str) (count' : Z) :
  repl_attr repo m count = Ok (out, count') ->
  (settled repo m /\ out = whole m /\ count' = count)
  \/ (~ settled repo m /\ count' = (count + 1)%Z).
Proof.
  unfold settled, repl_attr.
  destruct (if Py.startswith (Py.strip (m_path m)) (lit "/")
            then normalize_root_path (m_path m) repo
            else Ok (m_path m)) as [new|]; [|discriminate].
  cbn [bind]. destruct (Py.eqb new (m_path m)) eqn:E; cbn [negb];
    intros H; injection H as <- <-.
  - apply eqb_eq in E; subst new. left. auto.
  - apply eqb_neq in E. right. split; [congruence | reflexivity].
Qed.

Variable mt : cursor -> option (Match * cursor).
Hypothesis mt_sound :
  forall c m c', mt c = Some (m, c') -> after c = whole m ++ after c'.

Lemma sub_scan_count :
  forall (aft : str) (k : nat) (bef : str) (n : Z) (out : str) (n' : Z),
    sub_scan mt (repl_attr repo) k bef aft n = Ok (out, n') ->
    (n <= n')%Z
    /\ (n' = n ->
        Forall (settled repo) (scan_matches mt k bef aft)
        /\ out = skipn k aft).
Proof.
  induction aft as [|c aft IH]; intros k bef n out n' H.
  - rewrite sub_scan_nil in H. injection H as <- <-.
    split; [lia|]. intros _. split; [constructor | now destruct k].
  - destruct k as [|k].
    + rewrite sub_scan_try in H. rewrite scan_matches_try. cbv zeta in H.
      assert (Copy :
                ('(rest, s') <- sub_scan mt (repl_attr repo) 0 (c :: bef) aft n ;;
                 Ok (c :: rest, s')) = Ok (out, n') ->
                (n <= n')%Z
                /\ (n' = n ->
                    Forall (settled repo) (scan_matches mt 0 (c :: bef) aft)
                    /\ out = skipn 0 (c :: aft))).
      { destruct (sub_scan mt (repl_attr repo) 0 (c :: bef) aft n)
          as [[rest s']|] eqn:T; [|discriminate].
        cbn [bind]. intros H0; injection H0 as <- <-.
        destruct (IH _ _ _ _ _ T) as [I1 I2]. split; [assumption|].
        intros Hn. destruct (I2 Hn) as [F ->]. auto. }
      destruct (mt {| before := bef; after := c :: aft |})
        as [[m c']|] eqn:E; [|now apply Copy].
      destruct (length (c :: aft) - length (after c')) as [|L] eqn:EL;
        [now apply Copy|].
      destruct (repl_attr repo m n) as [[new n1]|] eqn:R; [|discriminate].
      cbn [bind] in H.
      destruct (sub_scan mt (repl_attr repo) L (c :: bef) aft n1)
        as [[rest n2]|] eqn:T; [|discriminate].
      cbn [bind] in H. injection H as <- <-.
      destruct (IH _ _ _ _ _ T) as [I1 I2].
      destruct (repl_attr_inv _ _ _ _ R) as [(Hs & -> & ->) | (Hs & ->)].
      * split; [assumption|]. intros Hn. destruct (I2 Hn) as [F ->].
        split; [now constructor|].
        pose proof (mt_sound _ _ _ E) as Hm. cbn [after] in Hm.
        destruct (match_tail _ _ _ _ _ Hm EL) as (H1 & _ & _).
        exact H1.
      * split; [lia|]. intros Hn. lia.
    + rewrite sub_scan_skip in H. apply (IH _ _ _ _ _ H).
Qed.

Lemma sub_settled (text : str) (n : Z) :
  Forall (settled repo) (finditer mt text) ->
  sub mt (repl_attr repo) text n = Ok (text, n).
Proof.
  intros F. unfold sub.
  apply (sub_scan_fixed mt whole mt_sound (repl_attr repo) n text 0 []).
  revert F. apply Forall_impl. intros m Hm. now apply repl_attr_settled.
Qed.

End Rewriter.

(** With a repository name without a backslash [rewrite_text] returns a
    result for every text. *)
Lemma rewrite_text_total (text repo : str) :
  plain repo -> exists out n, rewrite_text text repo = Ok (out, n).
Proof.
  intros Hp. unfold rewrite_text. rewrite repl_css_attr.
  assert (Hr : forall (m : Re.Match) (n : Z),
             exists o n', repl_attr repo m n = Ok (o, n')).
  { intros m n. unfold repl_attr.
    destruct (Py.startswith (Py.strip (Re.m_path m)) (lit "/")).
    - destruct (normalize_total repo (Re.m_path m) Hp) as [r ->].
      cbn [bind]. eauto.
    - cbn [bind]. eauto. }
  destruct (sub_scan_total (Re.match3 ATTR_PATTERN) (repl_attr repo) Hr
                           text 0 [] 0%Z) as (o1 & n1 & E1).
  unfold Re.sub. rewrite E1. cbn [bind].
  destruct (sub_scan_total (Re.match3 CSS_URL_PATTERN) (repl_attr repo) Hr
                           o1 0 [] n1) as (o2 & n2 & E2).
  rewrite E2. cbn [bind]. eauto.
Qed.

(** [rewrite_text] reports no change exactly when every path captured by
    the attribute scan and by the [url()] scan is settled, and it then
    returns the text as it is. *)
Lemma rewrite_text_settled (text repo : str) :
  rewrite_text text repo = Ok (text, 0%Z)
  <-> Forall (settled repo) (Re.finditer (Re.match3 ATTR_PATTERN) text)
      /\ Forall (settled repo) (Re.finditer (Re.match3 CSS_URL_PATTERN) text).
Proof.
  unfold rewrite_text. rewrite repl_css_attr. split.
  - intros H.
    destruct (Re.sub (Re.match3 ATTR_PATTERN) (repl_attr repo) text 0%Z)
      as [[out1 c1]|] eqn:T1; [|discriminate].
    cbn [bind] in H.
    destruct (Re.sub (Re.match3 CSS_URL_PATTERN) (repl_attr repo) out1 c1)
      as [[out2 c2]|] eqn:T2; [|discriminate].
    cbn [bind] in H. injection H as -> ->.
    destruct (sub_scan_count repo _ (match3_sound ATTR_PATTERN)
                             _ _ _ _ _ _ T1) as [A1 A2].
    destruct (sub_scan_count repo _ (match3_sound CSS_URL_PATTERN)
                             _ _ _ _ _ _ T2) as [B1 B2].
    assert (c1 = 0%Z) as -> by lia.
    destruct (A2 eq_refl) as [FA EA]. cbn [skipn] in EA. subst out1.
    destruct (B2 eq_refl) as [FB _]. split; assumption.
  - intros [FA FB].
    rewrite (sub_settled repo _ (match3_sound ATTR_PATTERN) _ _ FA).
    cbn [bind].
    rewrite (sub_settled repo _ (match3_sound CSS_URL_PATTERN) _ _ FB).
    reflexivity.
Qed.

(** * The claims *)

(** ** External references *)

(** C1, as stated, fails for engine 2: the external URL
    [http://a/Cyb3Raya-Blog/x] given to [apply_replacements] with the
    prefix [/Cyb3Raya-Blog/] comes back as [http://a/x]. *)
Lemma external_url_altered :
  ~ (forall (text url out : str) (prefixes : list str) (n : Z),
        is_external url = true ->
        Spec.occurs url text ->
        apply_replacements text prefixes = Ok (out, n) ->
        Spec.occurs url out).
Proof.
  intros H.
  specialize (H (lit "http://a/Cyb3Raya-Blog/x")
                (lit "http://a/Cyb3Raya-Blog/x")
                (lit "http://a/x") [lit "/Cyb3Raya-Blog/"] 1%Z).
  destruct H as (pre & post & E).
  - reflexivity.
  - exists [], []. reflexivity.
  - vm_compute. reflexivity.
  - apply (f_equal (@length ascii)) in E.
    rewrite !length_app in E. cbn in E. lia.
Qed.

(** C1, amended.  Engine 1 returns every path classified external as it
    is, for every repository name.  Engine 2 does not classify: it returns
    a text, an external URL or any other, unchanged and with count 0
    exactly when none of its non-empty prefixes, made slash-delimited,
    occurs in it. *)
Theorem external_unchanged :
  (forall path repo : str,
      is_external path = true -> normalize_root_path path repo = Ok path)
  /\ (forall (text : str) (prefixes : list str),
         Forall (idle text) prefixes
         <-> apply_replacements text prefixes = Ok (text, 0%Z)).
Proof.
  split.
  - intros path repo. apply normalize_external.
  - apply apply_replacements_idle.
Qed.

Lemma external_unchanged_witness :
  is_external (lit " //cdn.example.org/Cyb3Raya/lib.js ") = true
  /\ normalize_root_path (lit " //cdn.example.org/Cyb3Raya/lib.js ") blog
     = Ok (lit " //cdn.example.org/Cyb3Raya/lib.js ").
Proof.
  split; [reflexivity|].
  apply (proj1 external_unchanged). reflexivity.
Defined.

(** ** Idempotence *)

(** C2, as stated, fails: the root-absolute path [/Cyb3Raya/Cyb3Raya/x]
    becomes [/Cyb3Raya-Blog/Cyb3Raya/x], which a second call turns into
    [/Cyb3Raya-Blog/x]. *)
Lemma classifier_not_idempotent :
  Py.startswith (Py.strip (lit "/Cyb3Raya/Cyb3Raya/x")) (lit "/") = true
  /\ normalize_root_path (lit "/Cyb3Raya/Cyb3Raya/x") blog
     = Ok (lit "/Cyb3Raya-Blog/Cyb3Raya/x")
  /\ normalize_root_path (lit "/Cyb3Raya-Blog/Cyb3Raya/x") blog
     = Ok (lit "/Cyb3Raya-Blog/x")
  /\ (x <- normalize_root_path (lit "/Cyb3Raya/Cyb3Raya/x") blog ;;
      normalize_root_path x blog)
     <> normalize_root_path (lit "/Cyb3Raya/Cyb3Raya/x") blog.
Proof.
  repeat split; try (vm_compute; reflexivity).
  vm_compute. discriminate.
Qed.

(** C2, amended.  For a repository name without a backslash and without
    white space at its end, and a root-absolute path, the result of the
    classifier is returned unchanged by a second call whenever it does not
    begin with the duplicated segment [/<repo>/Cyb3Raya] at a segment
    boundary. *)
Theorem classifier_settles (repo path r : str) :
  plain repo ->
  clean_last repo ->
  Py.startswith (Py.strip path) (lit "/") = true ->
  normalize_root_path path repo = Ok r ->
  doubled_rest repo r = None ->
  normalize_root_path r repo = Ok r.
Proof.
  intros Hplain Hrepo Hroot H Hd.
  pose proof (strip_clean_last path) as Hlast.
  fold (clean_last (Py.strip path)) in Hlast.
  rewrite normalize_cases in H. cbv zeta in H.
  rewrite Hroot in H. cbn [negb] in H.
  destruct (is_external (Py.strip path)) eqn:Hext.
  { injection H as <-. apply normalize_external.
    now rewrite <- is_external_strip. }
  set (p := Py.strip path) in *.
  assert (Hps : Py.strip p = p) by apply strip_idem.
  clearbody p.
  destruct (Py.eqb p (lit "/" ++ repo)
            || Py.startswith p ((lit "/" ++ repo) ++ lit "/")) eqn:G.
  - rewrite (compile_plain _ Hplain) in H. cbn [bind] in H.
    rewrite expand_literal in H.
    destruct (doubled_rest repo p) as [rest|] eqn:D.
    + injection H as <-. apply doubled_rest_spec in D.
      destruct D as [Hp Ha].
      destruct (ahead_ok_cases _ Ha) as [E | [E | E]].
      * subst rest. rewrite app_nil_r in *.
        apply settled_path; auto.
        pose proof (trimmed_result repo Hplain [] Hrepo (or_introl eq_refl))
          as T.
        rewrite app_nil_r in T. exact T.
      * assert (Hx : clean_last rest).
        { apply startswith_iff in E. destruct E as [x E].
          rewrite Hp, E in Hlast. rewrite !app_assoc in Hlast.
          rewrite <- (app_assoc _ (lit "/") x) in Hlast.
          apply clean_last_suffix in Hlast; [|discriminate].
          now rewrite E. }
        apply settled_path; auto.
        -- apply (trimmed_result repo Hplain rest Hrepo). now right.
        -- right. apply startswith_iff in E. destruct E as [x ->].
           apply startswith_iff. exists x. now rewrite <- !app_assoc.
      * rewrite Hp, E in Hlast. rewrite !app_assoc in Hlast.
        apply clean_last_suffix in Hlast; [discriminate Hlast | discriminate].
    + injection H as <-. apply settled_path; auto.
      apply orb_true_iff in G. destruct G as [G | G]; [left | now right].
      now apply eqb_eq.
  - destruct (Py.eqb p (lit "/Cyb3Raya")
              || Py.startswith p (lit "/Cyb3Raya/")) eqn:L.
    + apply orb_true_iff in L. destruct L as [L | L].
      * apply eqb_eq in L. subst p. cbn in H. injection H as <-.
        apply settled_path; auto.
        -- apply (trimmed_result repo Hplain (lit "/") Hrepo). now right.
        -- right. apply startswith_iff. exists []. cbn. now rewrite app_nil_r.
      * apply startswith_iff in L. destruct L as [x ->].
        cbn in H. injection H as <-.
        assert (Hx : clean_last ("/"%char :: x)).
        { change (lit "/Cyb3Raya/" ++ x)
            with (lit "/Cyb3Raya" ++ ("/"%char :: x)) in Hlast.
          apply clean_last_suffix in Hlast; [assumption | discriminate]. }
        apply settled_path; auto.
        -- apply (trimmed_result repo Hplain ("/"%char :: x) Hrepo).
           now right.
        -- right. apply startswith_iff. exists x. cbn.
           now rewrite <- app_assoc.
    + injection H as <-.
      apply startswith_iff in Hroot. destruct Hroot as [x ->].
      apply settled_path; auto.
      * apply (trimmed_result repo Hplain (lit "/" ++ x) Hrepo). now right.
      * right. apply startswith_iff. exists x. cbn.
        now rewrite <- app_assoc.
Qed.

Lemma classifier_settles_witness :
  plain blog /\ clean_last blog
  /\ normalize_root_path (lit " /Cyb3Raya/HTML/b.html") blog
     = Ok (lit "/Cyb3Raya-Blog/HTML/b.html")
  /\ normalize_root_path (lit "/Cyb3Raya-Blog/HTML/b.html") blog
     = Ok (lit "/Cyb3Raya-Blog/HTML/b.html").
Proof.
  split; [reflexivity|]. split; [reflexivity|]. split; [reflexivity|].
  apply (classifier_settles blog (lit " /Cyb3Raya/HTML/b.html")
                            (lit "/Cyb3Raya-Blog/HTML/b.html"));
    reflexivity.
Defined.




(** ** Engine 2: the prefix-strip rewriter *)

(** C4.  [apply_replacements] takes the prefixes in the given order; each
    non-empty prefix is made slash-delimited, the segments that the current
    text splits into on it are joined again by a single slash, and the
    count grows by the number of those segments minus one.  The segments
    are the text between the occurrences of the prefix, found from left to
    right anywhere in the text: joined by the prefix they give the text
    back, and none of them contains the prefix.  On the text
    [href=Q/Cyb3Raya-Blog/CSS/x.cssQ], with [Q] the double quote, and the
    prefix [/Cyb3Raya-Blog/] the result is [href=Q/CSS/x.cssQ] with
    count 1. *)
Theorem apply_replacements_spec :
  (forall (text : str) (prefixes : list str),
      apply_replacements text prefixes
      = Ok (Spec.applyReplacements text prefixes))
  /\ (forall text prefix : str,
         let p := Spec.slash_delimited prefix in
         let segments := Py.split_from p 0 text in
         Py.join p segments = text
         /\ Forall (fun seg => ~ Spec.occurs p seg) segments)
  /\ apply_replacements (attr (lit "href") (lit "/Cyb3Raya-Blog/CSS/x.css"))
                        [lit "/Cyb3Raya-Blog/"]
     = Ok (attr (lit "href") (lit "/CSS/x.css"), 1%Z).
Proof.
  split; [|split].
  - intros text prefixes. apply for_each_spec.
  - intros text prefix p segments. split.
    + apply (join_split_from p (slash_delimited_nonempty prefix) text 0).
    + apply (split_from_free p (slash_delimited_nonempty prefix) text 0).
  - vm_compute. reflexivity.
Qed.

(** ** Engine 1: the rules of the classifier *)

(** C5.  When the trimmed path is [/Cyb3Raya] followed by nothing or by a
    part that begins with a slash, and does not already carry the
    [/<repo>] prefix, the legacy segment is replaced by [/<repo>] and the
    part after it is kept; an empty remainder becomes a slash. *)
Theorem legacy_segment_replaced (repo path rest : str) :
  Py.strip path = lit "/Cyb3Raya" ++ rest ->
  rest = [] \/ Py.startswith rest (lit "/") = true ->
  Py.strip path <> lit "/" ++ repo ->
  Py.startswith (Py.strip path) (lit "/" ++ repo ++ lit "/") = false ->
  normalize_root_path path repo
  = Ok (lit "/" ++ repo ++ match rest with [] => lit "/" | _ :: _ => rest end).
Proof.
  intros Hp Hrest Hne Hns. rewrite normalize_cases. cbv zeta.
  assert (Hext : is_external (Py.strip path) = false).
  { unfold is_external. rewrite strip_idem, Hp. reflexivity. }
  rewrite Hext. apply eqb_neq in Hne. rewrite Hne.
  change ((lit "/" ++ repo) ++ lit "/") with (lit "/" ++ repo ++ lit "/").
  rewrite Hns, Hp. cbn [orb].
  change (Py.startswith (lit "/Cyb3Raya" ++ rest) (lit "/")) with true.
  cbn [negb].
  assert (L : Py.eqb (lit "/Cyb3Raya" ++ rest) (lit "/Cyb3Raya")
              || Py.startswith (lit "/Cyb3Raya" ++ rest) (lit "/Cyb3Raya/")
              = true).
  { destruct Hrest as [-> | Hr]; [reflexivity|].
    apply orb_true_iff; right.
    apply startswith_iff in Hr. destruct Hr as [r ->].
    apply startswith_iff. exists r. reflexivity. }
  rewrite L.
  change (skipn (length (lit "/Cyb3Raya")) (lit "/Cyb3Raya" ++ rest))
    with rest.
  destruct rest; reflexivity.
Qed.

Lemma legacy_segment_replaced_witness :
  Py.strip (lit "/Cyb3Raya/HTML/b.html") = lit "/Cyb3Raya" ++ lit "/HTML/b.html"
  /\ normalize_root_path (lit "/Cyb3Raya/HTML/b.html") blog
     = Ok (lit "/Cyb3Raya-Blog/HTML/b.html").
Proof.
  split; [reflexivity|].
  apply (legacy_segment_replaced blog (lit "/Cyb3Raya/HTML/b.html")
                                 (lit "/HTML/b.html")).
  - reflexivity.
  - right; reflexivity.
  - discriminate.
  - reflexivity.
Defined.

(** The examples of C6, under the repository name of the blog. *)
Lemma prefixed_examples :
  normalize_root_path (lit "/Cyb3Raya-Blog/Cyb3Raya/img.png") blog
  = Ok (lit "/Cyb3Raya-Blog/img.png")
  /\ normalize_root_path (lit "/Cyb3Raya-Blog/Cyb3Raya") blog
     = Ok (lit "/Cyb3Raya-Blog")
  /\ normalize_root_path (lit "/Cyb3Raya-Blog/CSS/a.css") blog
     = Ok (lit "/Cyb3Raya-Blog/CSS/a.css").
Proof. repeat split; vm_compute; reflexivity. Qed.

(** C6 on a repository name with a backslash.  The pattern is built from
    the escaped name, but the replacement is the name itself, which
    [re.sub] reads as a template: with the name [a\n] the path
    [/a\n/Cyb3Raya/x] becomes [/a], a line feed, [/x] instead of
    [/a\n/x], and with the name [a\d] the well-prefixed path [/a\d/x]
    raises instead of being returned. *)
Theorem replacement_read_as_template :
  normalize_root_path (lit "/a\n/Cyb3Raya/x") (lit "a\n")
  = Ok (lit "/a" ++ "010"%char :: lit "/x")
  /\ normalize_root_path (lit "/a\n/Cyb3Raya/x") (lit "a\n")
     <> Ok (lit "/a\n/x")
  /\ normalize_root_path (lit "/a\d/x") (lit "a\d") = Raise.
Proof.
  split; [|split].
  - vm_compute. reflexivity.
  - vm_compute. discriminate.
  - vm_compute. reflexivity.
Qed.

(** C7.  A trimmed root-absolute path that is not external, does not carry
    the [/<repo>] prefix and is not under the legacy segment gets
    [/<repo>] put in front of it. *)
Theorem other_path_prefixed (repo path : str) :
  Py.startswith (Py.strip path) (lit "/") = true ->
  is_external (Py.strip path) = false ->
  Py.strip path <> lit "/" ++ repo ->
  Py.startswith (Py.strip path) (lit "/" ++ repo ++ lit "/") = false ->
  Py.strip path <> lit "/Cyb3Raya" ->
  Py.startswith (Py.strip path) (lit "/Cyb3Raya/") = false ->
  normalize_root_path path repo = Ok (lit "/" ++ repo ++ Py.strip path).
Proof.
  intros H1 H2 H3 H4 H5 H6. rewrite normalize_cases. cbv zeta.
  apply eqb_neq in H3, H5.
  change ((lit "/" ++ repo) ++ lit "/") with (lit "/" ++ repo ++ lit "/").
  rewrite H1, H2, H3, H4, H5, H6. reflexivity.
Qed.

Lemma other_path_prefixed_witness :
  Py.startswith (Py.strip (lit "/CSS/a.css")) (lit "/") = true
  /\ is_external (Py.strip (lit "/CSS/a.css")) = false
  /\ normalize_root_path (lit "/CSS/a.css") blog
     = Ok (lit "/Cyb3Raya-Blog/CSS/a.css").
Proof.
  split; [reflexivity|]. split; [reflexivity|].
  apply (other_path_prefixed blog (lit "/CSS/a.css"));
    solve [reflexivity | discriminate].
Defined.

(** C8, as stated, fails: the string [ /x], with a space in front, does
    not start with a slash, and the classifier returns
    [/Cyb3Raya-Blog/x] for it. *)
Lemma leading_space_rewritten :
  ~ (forall path repo : str,
        Py.startswith path (lit "/") = false ->
        normalize_root_path path repo = Ok path).
Proof.
  intros H. specialize (H (lit " /x") blog eq_refl).
  vm_compute in H. discriminate H.
Qed.

(** C8, amended.  A string whose trimmed form does not start with a slash
    is returned unchanged by the classifier, for every repository name;
    an attribute or [url()] match whose captured path is such a string is
    put back as it was matched and leaves the count as it is; and a text
    in which every captured path is such a string is returned unchanged
    with count 0. *)
Theorem not_root_absolute_unchanged :
  (forall path repo : str,
      Py.startswith (Py.strip path) (lit "/") = false ->
      normalize_root_path path repo = Ok path)
  /\ (forall (repo : str) (m : Re.Match) (count : Z),
         Py.startswith (Py.strip (Re.m_path m)) (lit "/") = false ->
         repl_attr repo m count = Ok (whole m, count)
         /\ repl_css repo m count = Ok (whole m, count))
  /\ (forall text repo : str,
         Forall (fun m => Py.startswith (Py.strip (Re.m_path m)) (lit "/")
                          = false)
                (Re.finditer (Re.match3 ATTR_PATTERN) text) ->
         Forall (fun m => Py.startswith (Py.strip (Re.m_path m)) (lit "/")
                          = false)
                (Re.finditer (Re.match3 CSS_URL_PATTERN) text) ->
         rewrite_text text repo = Ok (text, 0%Z)).
Proof.
  assert (S : forall repo m,
             Py.startswith (Py.strip (Re.m_path m)) (lit "/") = false ->
             settled repo m).
  { intros repo m H. unfold settled. now rewrite H. }
  split; [|split].
  - intros path repo. apply normalize_not_root.
  - intros repo m count H. rewrite repl_css_attr.
    split; apply repl_attr_settled, S, H.
  - intros text repo FA FB. apply rewrite_text_settled.
    split; [revert FA | revert FB]; apply Forall_impl; intros m; apply S.
Qed.

Lemma not_root_absolute_unchanged_witness :
  Py.startswith (Py.strip (lit " CSS/a.css ")) (lit "/") = false
  /\ normalize_root_path (lit " CSS/a.css ") blog = Ok (lit " CSS/a.css ").
Proof.
  split; [reflexivity|].
  apply (proj1 not_root_absolute_unchanged). reflexivity.
Defined.



(** ** Engine 2: empty prefixes *)

(** C10.  An empty prefix in the list is passed over: the list with it
    gives the same result as the list without it, and alone it returns the
    text with count 0, whereas the prefix [/] that it would normalize to
    counts the slashes of the text. *)
Theorem empty_prefix_skipped :
  (forall (text : str) (before_it after_it : list str),
      apply_replacements text (before_it ++ [] :: after_it)
      = apply_replacements text (before_it ++ after_it))
  /\ (forall text : str, apply_replacements text [[]] = Ok (text, 0%Z))
  /\ apply_replacements (lit "/a/b") [lit "/"] = Ok (lit "/a/b", 2%Z).
Proof.
  split; [|split].
  - intros text l1 l2. unfold apply_replacements.
    generalize (text, 0%Z) as st.
    induction l1 as [|p l1 IH]; intros st.
    + destruct st; reflexivity.
    + cbn [app for_each]. destruct (replace_prefix st p); cbn [bind]; auto.
  - reflexivity.
  - vm_compute. reflexivity.
Qed.

(** * Further properties of the code *)

(** ** The shape of what the classifier returns *)

Section Shape.

Variable repo : str.
Hypothesis repo_plain : plain repo.

Lemma normalize_shape (path r : str) :
  Py.startswith (Py.strip path) (lit "/") = true ->
  is_external (Py.strip path) = false ->
  normalize_root_path path repo = Ok r ->
  exists t, r = lit "/" ++ repo ++ t
            /\ (t = [] \/ (Py.startswith t (lit "/") = true /\ clean_last t)).
Proof.
  intros Hroot Hext H.
  pose proof (strip_clean_last path) as Hlast.
  fold (clean_last (Py.strip path)) in Hlast.
  rewrite normalize_cases in H. cbv zeta in H.
  rewrite Hroot, Hext in H. cbn [negb] in H.
  set (p := Py.strip path) in *. clearbody p.
  destruct (Py.eqb p (lit "/" ++ repo)
            || Py.startswith p ((lit "/" ++ repo) ++ lit "/")) eqn:G.
  - rewrite (compile_plain _ repo_plain) in H. cbn [bind] in H.
    rewrite expand_literal in H.
    destruct (doubled_rest repo p) as [rest|] eqn:D.
    + injection H as <-. apply doubled_rest_spec in D.
      destruct D as [Hp Ha]. exists rest. split; [reflexivity|].
      destruct (ahead_ok_cases _ Ha) as [E | [E | E]]; [now left | |].
      * right. split; [assumption|].
        apply startswith_iff in E. destruct E as [x E].
        rewrite Hp, E in Hlast. rewrite !app_assoc in Hlast.
        rewrite <- (app_assoc _ (lit "/") x) in Hlast.
        apply clean_last_suffix in Hlast; [|discriminate].
        now rewrite E.
      * rewrite Hp, E in Hlast. rewrite !app_assoc in Hlast.
        apply clean_last_suffix in Hlast; [discriminate Hlast | discriminate].
    + injection H as <-.
      apply orb_true_iff in G. destruct G as [G | G].
      * apply eqb_eq in G. exists []. rewrite app_nil_r. auto.
      * apply startswith_iff in G. destruct G as [x G].
        exists (lit "/" ++ x). split.
        -- rewrite G. now rewrite <- !app_assoc.
        -- right. split; [reflexivity|].
           rewrite G in Hlast. rewrite <- app_assoc in Hlast.
           apply clean_last_suffix in Hlast; [assumption | discriminate].
  - destruct (Py.eqb p (lit "/Cyb3Raya")
              || Py.startswith p (lit "/Cyb3Raya/")) eqn:L.
    + apply orb_true_iff in L. destruct L as [L | L].
      * apply eqb_eq in L. subst p. cbn in H. injection H as <-.
        exists (lit "/"). split; [reflexivity|]. right. split; reflexivity.
      * apply startswith_iff in L. destruct L as [x ->].
        cbn in H. injection H as <-.
        exists ("/"%char :: x). split; [reflexivity|].
        right. split; [reflexivity|].
        change (lit "/Cyb3Raya/" ++ x)
          with (lit "/Cyb3Raya" ++ ("/"%char :: x)) in Hlast.
        apply clean_last_suffix in Hlast; [assumption | discriminate].
    + injection H as <-. exists p. split; [reflexivity|]. right.
      split; [assumption|].
      apply startswith_iff in Hroot. destruct Hroot as [x ->]. assumption.
Qed.

End Shape.

(** ** Characters and trimming *)

Section Characters.

Lemma lower_char_slash (c : ascii) :
  Ascii.eqb (Py.lower_char c) "/" = Ascii.eqb c "/".
Proof. destruct c as [[] [] [] [] [] [] [] []]; reflexivity. Qed.

Lemma lower_char_idem (c : ascii) :
  Py.lower_char (Py.lower_char c) = Py.lower_char c.
Proof. destruct c as [[] [] [] [] [] [] [] []]; reflexivity. Qed.

Lemma isspace_lower_char (c : ascii) :
  Py.isspace (Py.lower_char c) = Py.isspace c.
Proof. destruct c as [[] [] [] [] [] [] [] []]; reflexivity. Qed.

Lemma lower_idem (s : str) : Py.lower (Py.lower s) = Py.lower s.
Proof.
  unfold Py.lower. rewrite map_map. apply map_ext. apply lower_char_idem.
Qed.

Lemma lstrip_lower (s : str) : Py.lstrip (Py.lower s) = Py.lower (Py.lstrip s).
Proof.
  induction s as [|c s IH]; [reflexivity|].
  cbn [Py.lower map Py.lstrip]. rewrite isspace_lower_char.
  destruct (Py.isspace c); [exact IH | reflexivity].
Qed.

Lemma strip_lower (s : str) : Py.strip (Py.lower s) = Py.lower (Py.strip s).
Proof.
  unfold Py.strip, Py.rstrip. rewrite lstrip_lower.
  unfold Py.lower at 1. rewrite <- map_rev.
  fold (Py.lower (rev (Py.lstrip s))). rewrite lstrip_lower.
  unfold Py.lower. now rewrite map_rev.
Qed.

(** The trimmed form of a string that begins with a character other than
    white space: the string without its trailing white space. *)
Lemma strip_prefix_of (s : str) :
  clean_head s ->
  exists ws, s = Py.strip s ++ ws
             /\ Forall (fun c => Py.isspace c = true) ws.
Proof.
  intros H. unfold Py.strip. rewrite (lstrip_fixed _ H).
  apply rstrip_prefix.
Qed.

Lemma strip_keeps_head (c : ascii) (s : str) :
  Py.isspace c = false ->
  exists v ws, Py.strip (c :: s) = c :: v /\ s = v ++ ws
               /\ Forall (fun x => Py.isspace x = true) ws.
Proof.
  intros Hc. destruct (strip_prefix_of (c :: s) Hc) as (ws & E & F).
  destruct (Py.strip (c :: s)) as [|d v] eqn:Es.
  - cbn in E. subst ws. inversion F; congruence.
  - injection E as <- E. now exists v, ws.
Qed.

End Characters.

(** ** External references among root-absolute paths *)

Section RootExternal.

(** For a string that begins with a slash, [is_external] is the test for a
    second slash. *)
Lemma is_external_root (u : str) :
  Py.startswith u (lit "/") = true ->
  is_external u = Py.startswith u (lit "//").
Proof.
  intros H. apply startswith_iff in H. destruct H as [u' ->].
  change (lit "/" ++ u') with ("/"%char :: u').
  destruct (strip_keeps_head "/" u' eq_refl) as (v & ws & Es & E & F).
  unfold is_external. rewrite Es.
  change (Py.lower ("/"%char :: v)) with ("/"%char :: Py.lower v).
  change (Py.startswith ("/"%char :: u') (lit "//"))
    with (Py.startswith u' (lit "/")).
  transitivity (Py.startswith (Py.lower v) (lit "/"));
    [cbn [Py.startswith lit list_ascii_of_string Ascii.eqb Bool.eqb andb orb];
     apply orb_false_r|].
  subst u'. destruct v as [|c v]; cbn [Py.lower map Py.startswith].
  - destruct ws as [|w ws]; [reflexivity|].
    inversion F as [|? ? Hw _]; subst. cbn [app Py.startswith lit list_ascii_of_string].
    destruct (Ascii.eqb_spec w "/"); [subst; discriminate | reflexivity].
  - cbn [app lit list_ascii_of_string Py.startswith].
    now rewrite lower_char_slash.
Qed.

End RootExternal.

(** X1.  For a repository name without a backslash, whatever the
    classifier returns for a root-absolute path that is not external
    carries the prefix: it is [/<repo>] itself or begins with [/<repo>/];
    and when the name does not end with white space the result is its own
    trimmed form. *)
Theorem result_carries_prefix (repo path r : str) :
  plain repo ->
  Py.startswith (Py.strip path) (lit "/") = true ->
  is_external (Py.strip path) = false ->
  normalize_root_path path repo = Ok r ->
  (r = lit "/" ++ repo \/ Py.startswith r (lit "/" ++ repo ++ lit "/") = true)
  /\ (clean_last repo -> Py.strip r = r).
Proof.
  intros Hp Hroot Hext H.
  destruct (normalize_shape repo Hp path r Hroot Hext H) as (t & -> & Ht).
  split.
  - destruct Ht as [-> | [Ht _]].
    + left. now rewrite app_nil_r.
    + right. apply startswith_iff in Ht. destruct Ht as [x ->].
      apply startswith_iff. exists x. cbn. now rewrite <- app_assoc.
  - intros Hr. apply (trimmed_result repo Hp t Hr).
    destruct Ht as [-> | [_ Ht]]; auto.
Qed.

Lemma result_carries_prefix_witness :
  plain blog
  /\ normalize_root_path (lit " /Cyb3Raya/HTML/b.html ") blog
     = Ok (lit "/Cyb3Raya-Blog/HTML/b.html")
  /\ Py.startswith (lit "/Cyb3Raya-Blog/HTML/b.html")
                   (lit "/" ++ blog ++ lit "/") = true.
Proof.
  split; [reflexivity|]. split; [reflexivity|].
  destruct (result_carries_prefix blog (lit " /Cyb3Raya/HTML/b.html ")
              (lit "/Cyb3Raya-Blog/HTML/b.html")
              eq_refl eq_refl eq_refl eq_refl) as [[H | H] _].
  - discriminate H.
  - exact H.
Defined.

(** X2.  For a string that begins with a slash, [is_external] holds
    exactly when the string begins with two slashes: after the test for
    the leading slash in [normalize_root_path], the scheme prefixes and
    the fragment sign can no longer match. *)
Theorem external_root_is_double_slash (u : str) :
  Py.startswith u (lit "/") = true ->
  is_external u = Py.startswith u (lit "//").
Proof. apply is_external_root. Qed.

Lemma external_root_is_double_slash_witness :
  Py.startswith (lit "/mailto:a@b") (lit "/") = true
  /\ is_external (lit "/mailto:a@b")
     = Py.startswith (lit "/mailto:a@b") (lit "//").
Proof.
  split; [reflexivity|].
  apply (external_root_is_double_slash (lit "/mailto:a@b")). reflexivity.
Defined.

(** X3.  With a non-empty repository name that has no backslash and does
    not begin with a slash, the classifier never turns a local path into
    an external one: the result for a root-absolute path that is not
    external begins with a slash and is not external either. *)
Theorem local_stays_local (repo path r : str) :
  plain repo ->
  repo <> [] ->
  Py.startswith repo (lit "/") = false ->
  Py.startswith (Py.strip path) (lit "/") = true ->
  is_external (Py.strip path) = false ->
  normalize_root_path path repo = Ok r ->
  Py.startswith r (lit "/") = true /\ is_external r = false.
Proof.
  intros Hp Hne Hs Hroot Hext H.
  destruct (normalize_shape repo Hp path r Hroot Hext H) as (t & -> & _).
  split; [reflexivity|].
  rewrite is_external_root by reflexivity.
  destruct repo as [|c q]; [contradiction|]. exact Hs.
Qed.

Lemma local_stays_local_witness :
  plain blog /\ blog <> [] /\ Py.startswith blog (lit "/") = false
  /\ normalize_root_path (lit "/CSS/a.css") blog
     = Ok (lit "/Cyb3Raya-Blog/CSS/a.css")
  /\ is_external (lit "/Cyb3Raya-Blog/CSS/a.css") = false.
Proof.
  split; [reflexivity|]. split; [discriminate|].
  split; [reflexivity|]. split; [reflexivity|].
  apply (local_stays_local blog (lit "/CSS/a.css")
                           (lit "/Cyb3Raya-Blog/CSS/a.css"));
    solve [reflexivity | discriminate].
Defined.

(** X4.  With the empty repository name every root-absolute path that is
    not external, other than the single slash, is returned with a second
    slash in front: the result is a protocol-relative, external
    reference. *)
Theorem empty_repo_makes_external (path r : str) :
  Py.startswith (Py.strip path) (lit "/") = true ->
  is_external (Py.strip path) = false ->
  Py.strip path <> lit "/" ->
  normalize_root_path path [] = Ok r ->
  Py.startswith r (lit "//") = true /\ is_external r = true.
Proof.
  intros Hroot Hext Hne H.
  assert (D : Py.startswith r (lit "//") = true).
  { rewrite normalize_cases in H. cbv zeta in H.
    rewrite Hroot, Hext in H. cbn [negb] in H.
    rewrite (is_external_root _ Hroot) in Hext.
    set (p := Py.strip path) in *. clearbody p.
    change ((lit "/" ++ []) ++ lit "/") with (lit "//") in H.
    change (lit "/" ++ []) with (lit "/") in H.
    apply eqb_neq in Hne. rewrite Hne, Hext in H. cbn [orb] in H.
    destruct (Py.eqb p (lit "/Cyb3Raya")
              || Py.startswith p (lit "/Cyb3Raya/")) eqn:L.
    - apply orb_true_iff in L. destruct L as [L | L].
      + apply eqb_eq in L. subst p. cbn in H. now injection H as <-.
      + apply startswith_iff in L. destruct L as [x ->].
        cbn in H. now injection H as <-.
    - injection H as <-.
      apply startswith_iff in Hroot. destruct Hroot as [x ->]. reflexivity. }
  split; [exact D|].
  rewrite is_external_root; [exact D|].
  apply startswith_iff in D. destruct D as [x ->]. reflexivity.
Qed.

Lemma empty_repo_makes_external_witness :
  normalize_root_path (lit "/CSS/a.css") [] = Ok (lit "//CSS/a.css")
  /\ is_external (lit "//CSS/a.css") = true.
Proof.
  split; [reflexivity|].
  apply (empty_repo_makes_external (lit "/CSS/a.css") (lit "//CSS/a.css"));
    solve [reflexivity | discriminate].
Defined.

(** ** Engine 2: counts, lengths and the spelling of prefixes *)

Section Engine2More.

Lemma for_each_app (ps qs : list str) (st : str * Z) :
  for_each (ps ++ qs) st = (st' <- for_each ps st ;; for_each qs st').
Proof.
  revert st; induction ps as [|p ps IH]; intros st; [reflexivity|].
  cbn [app for_each]. destruct (replace_prefix st p); cbn [bind]; auto.
Qed.

Lemma strip_prefix_shift (t : str) (n : Z) (p : str) :
  Spec.strip_prefix (t, n) p
  = (fst (Spec.strip_prefix (t, 0%Z) p),
     (n + snd (Spec.strip_prefix (t, 0%Z) p))%Z).
Proof.
  destruct p as [|c q]; cbn [Spec.strip_prefix fst snd].
  - f_equal. lia.
  - f_equal.
Qed.

Lemma fold_strip_prefix_shift (ps : list str) (t : str) (n : Z) :
  fold_left Spec.strip_prefix ps (t, n)
  = (fst (fold_left Spec.strip_prefix ps (t, 0%Z)),
     (n + snd (fold_left Spec.strip_prefix ps (t, 0%Z)))%Z).
Proof.
  revert t n; induction ps as [|p ps IH]; intros t n.
  - cbn. f_equal. lia.
  - cbn [fold_left]. rewrite (strip_prefix_shift t n p).
    destruct (Spec.strip_prefix (t, 0%Z) p) as [t1 n1]. cbn [fst snd].
    rewrite (IH t1 (n + n1)%Z), (IH t1 n1). cbn [fst snd]. f_equal. lia.
Qed.

Lemma length_join (sep : str) (segs : list str) :
  segs <> [] ->
  length (Py.join sep segs) + length sep
  = list_sum (map (fun seg => length seg + length sep) segs).
Proof.
  induction segs as [|x [|y rest] IH]; intros H; [contradiction | |].
  - cbn. lia.
  - change (Py.join sep (x :: y :: rest))
      with (x ++ sep ++ Py.join sep (y :: rest)).
    rewrite !length_app.
    change (map ?f (x :: y :: rest)) with (f x :: map f (y :: rest)).
    specialize (IH ltac:(discriminate)).
    unfold list_sum in *. cbn [fold_right]. lia.
Qed.

Lemma list_sum_shift (a b : nat) (segs : list str) :
  list_sum (map (fun seg => length seg + a) segs) + length segs * b
  = list_sum (map (fun seg => length seg + b) segs) + length segs * a.
Proof.
  unfold list_sum.
  induction segs as [|x segs IH]; cbn [map fold_right length]; lia.
Qed.

Lemma slash_delimited_slashes (prefix : str) :
  Py.startswith (Spec.slash_delimited prefix) (lit "/") = true
  /\ Py.endswith (Spec.slash_delimited prefix) (lit "/") = true.
Proof.
  unfold Spec.slash_delimited.
  set (p := if Py.startswith prefix (lit "/") then prefix
            else lit "/" ++ prefix).
  assert (Hp : Py.startswith p (lit "/") = true).
  { unfold p. destruct (Py.startswith prefix (lit "/")) eqn:E; auto. }
  destruct (Py.endswith p (lit "/")) eqn:E; [auto|]. split.
  - apply startswith_iff in Hp. destruct Hp as [x ->].
    apply startswith_iff. exists (x ++ lit "/"). now rewrite <- app_assoc.
  - unfold Py.endswith. rewrite rev_app_distr. reflexivity.
Qed.

Lemma slash_delimited_idem (prefix : str) :
  Spec.slash_delimited (Spec.slash_delimited prefix)
  = Spec.slash_delimited prefix.
Proof.
  destruct (slash_delimited_slashes prefix) as [H1 H2].
  unfold Spec.slash_delimited at 1. now rewrite H1, H2.
Qed.

Lemma slash_delimited_long (prefix : str) :
  prefix <> [] -> prefix <> lit "/" ->
  2 <= length (Spec.slash_delimited prefix).
Proof.
  intros H0 H1. unfold Spec.slash_delimited.
  destruct (Py.startswith prefix (lit "/")) eqn:E.
  - apply startswith_iff in E. destruct E as [x ->].
    destruct x as [|c x]; [contradiction H1; reflexivity|].
    destruct (Py.endswith _ _); [|rewrite length_app]; cbn [length app lit list_ascii_of_string]; lia.
  - destruct prefix as [|c x]; [contradiction|].
    destruct (Py.endswith _ _); [|rewrite length_app]; cbn [length app lit list_ascii_of_string]; lia.
Qed.

(** One prefix: what the step does to the length of the text. *)
Lemma strip_prefix_length (t : str) (n : Z) (prefix : str) :
  let st' := Spec.strip_prefix (t, n) prefix in
  length (fst st') <= length t
  /\ (prefix <> lit "/" ->
      (Z.of_nat (length (fst st')) + (snd st' - n)
       <= Z.of_nat (length t))%Z).
Proof.
  destruct prefix as [|c q]; cbv zeta; cbn [Spec.strip_prefix fst snd].
  - split; [lia|]. intros _. lia.
  - set (p := Spec.slash_delimited (c :: q)).
    pose proof (split_from_nonempty p 0 t) as Hne.
    pose proof (join_split_from p (slash_delimited_nonempty (c :: q)) t 0)
      as J. cbn [skipn] in J.
    pose proof (length_join p _ Hne) as L1.
    pose proof (length_join (lit "/") _ Hne) as L2.
    pose proof (list_sum_shift (length p) (length (lit "/"))
                               (Py.split_from p 0 t)) as S.
    rewrite J in L1. change (length (lit "/")) with 1 in *.
    pose proof (split_from_length p 0 t) as K.
    assert (P1 : 1 <= length p).
    { pose proof (slash_delimited_nonempty (c :: q)) as Hq. fold p in Hq.
      destruct p; [contradiction | cbn; lia]. }
    split.
    + nia.
    + intros Hs.
      assert (P2 : 2 <= length p)
        by (apply slash_delimited_long; [discriminate | assumption]).
      nia.
Qed.

End Engine2More.

(** X5.  The count of [apply_replacements] is never negative, and a count
    of 0 means that the text is returned as it was: the test
    [count <= 0] of [main] only ever passes over unchanged files. *)
Theorem zero_count_unchanged (text : str) (prefixes : list str)
        (out : str) (n : Z) :
  apply_replacements text prefixes = Ok (out, n) ->
  (0 <= n)%Z /\ (n = 0%Z -> out = text).
Proof.
  unfold apply_replacements. rewrite for_each_spec.
  destruct (fold_strip_prefix_fixed prefixes text 0) as (F1 & F2 & F3).
  intros H. injection H as H. rewrite H in *. cbn [fst snd] in *.
  split; [assumption|]. intros ->. apply F3. now apply F2.
Qed.

Lemma zero_count_unchanged_witness :
  apply_replacements (lit "a /Cyb3Raya/x") [lit "Cyb3Raya"]
  = Ok (lit "a /x", 1%Z)
  /\ (0 <= 1)%Z.
Proof.
  split; [reflexivity|].
  apply (zero_count_unchanged (lit "a /Cyb3Raya/x") [lit "Cyb3Raya"]
                              (lit "a /x") 1%Z).
  reflexivity.
Defined.

(** X6.  Prefix lists compose: applying a list followed by another is
    applying the first, then the second to its output, and adding the two
    counts. *)
Theorem apply_replacements_app (text : str) (ps qs : list str) :
  apply_replacements text (ps ++ qs)
  = ('(mid, n1) <- apply_replacements text ps ;;
     '(out, n2) <- apply_replacements mid qs ;;
     Ok (out, (n1 + n2)%Z)).
Proof.
  unfold apply_replacements. rewrite for_each_app, !for_each_spec.
  cbn [bind].
  destruct (fold_left Spec.strip_prefix ps (text, 0%Z)) as [mid n1] eqn:E.
  rewrite !for_each_spec. cbn [bind].
  rewrite (fold_strip_prefix_shift qs mid n1).
  destruct (fold_left Spec.strip_prefix qs (mid, 0%Z)) as [out n2].
  reflexivity.
Qed.

(** X7.  [apply_replacements] never makes a text longer; and when no
    prefix is the single slash, every replacement counted removes at
    least one character, so a positive count means a shorter text. *)
Theorem replacements_shorten (text : str) (prefixes : list str)
        (out : str) (n : Z) :
  apply_replacements text prefixes = Ok (out, n) ->
  length out <= length text
  /\ (Forall (fun p => p <> lit "/") prefixes ->
      (Z.of_nat (length out) + n <= Z.of_nat (length text))%Z).
Proof.
  unfold apply_replacements. rewrite for_each_spec.
  intros H. injection H as H.
  assert (G : forall ps t k,
             let st' := fold_left Spec.strip_prefix ps (t, k) in
             length (fst st') <= length t
             /\ (Forall (fun p => p <> lit "/") ps ->
                 (Z.of_nat (length (fst st')) + (snd st' - k)
                  <= Z.of_nat (length t))%Z)).
  { induction ps as [|p ps IH]; intros t k; cbv zeta.
    - cbn. split; [lia|]. intros _. lia.
    - cbn [fold_left].
      destruct (strip_prefix_length t k p) as [S1 S2].
      destruct (Spec.strip_prefix (t, k) p) as [t1 k1].
      cbn [fst snd] in S1, S2.
      destruct (IH t1 k1) as [I1 I2]. split; [lia|].
      intros F. inversion F as [|? ? Hp Hps]; subst.
      specialize (S2 Hp). specialize (I2 Hps). lia. }
  destruct (G prefixes text 0%Z) as [G1 G2]. rewrite H in G1, G2.
  cbn [fst snd] in G1, G2. split; [assumption|].
  intros F. specialize (G2 F). lia.
Qed.

Lemma replacements_shorten_witness :
  apply_replacements (lit "a /Cyb3Raya/x /Cyb3Raya/y")
                     [lit "/Cyb3Raya/"]
  = Ok (lit "a /x /y", 2%Z)
  /\ length (lit "a /x /y") <= length (lit "a /Cyb3Raya/x /Cyb3Raya/y").
Proof.
  split; [reflexivity|].
  apply (replacements_shorten (lit "a /Cyb3Raya/x /Cyb3Raya/y")
                              [lit "/Cyb3Raya/"] (lit "a /x /y") 2%Z).
  reflexivity.
Defined.

(** X8.  The spelling of a prefix does not matter: a non-empty prefix can
    be given with or without its leading and trailing slash, and the
    result is that of the list in which every non-empty prefix is written
    with both. *)
Theorem prefix_spelling (text : str) (prefixes : list str) :
  apply_replacements text prefixes
  = apply_replacements
      text
      (map (fun p => match p with
                     | [] => []
                     | _ :: _ => Spec.slash_delimited p
                     end) prefixes).
Proof.
  unfold apply_replacements. rewrite !for_each_spec. f_equal.
  generalize (text, 0%Z) as st.
  induction prefixes as [|p ps IH]; intros st; [reflexivity|].
  cbn [map fold_left]. rewrite <- IH. f_equal.
  destruct p as [|c q]; [reflexivity|].
  pose proof (slash_delimited_nonempty (c :: q)) as Hne.
  unfold Spec.strip_prefix at 2.
  destruct (Spec.slash_delimited (c :: q)) as [|d q'] eqn:E;
    [contradiction|].
  rewrite <- E, slash_delimited_idem. reflexivity.
Qed.

(** ** Engine 1: counts, and texts without a match *)

(** X9.  The count of [rewrite_text] is never negative, and a count of 0
    means that the text is returned as it was: the test [cnt == 0] of
    [main] only ever passes over files that need no rewriting. *)
Theorem no_count_no_change (text repo out : str) (n : Z) :
  rewrite_text text repo = Ok (out, n) ->
  (0 <= n)%Z /\ (n = 0%Z -> out = text).
Proof.
  unfold rewrite_text. rewrite repl_css_attr. intros H.
  destruct (Re.sub (Re.match3 ATTR_PATTERN) (repl_attr repo) text 0%Z)
    as [[out1 c1]|] eqn:T1; [|discriminate].
  cbn [bind] in H.
  destruct (Re.sub (Re.match3 CSS_URL_PATTERN) (repl_attr repo) out1 c1)
    as [[out2 c2]|] eqn:T2; [|discriminate].
  cbn [bind] in H. injection H as -> ->.
  destruct (sub_scan_count repo _ (match3_sound ATTR_PATTERN)
                           _ _ _ _ _ _ T1) as [A1 A2].
  destruct (sub_scan_count repo _ (match3_sound CSS_URL_PATTERN)
                           _ _ _ _ _ _ T2) as [B1 B2].
  split; [lia|]. intros ->.
  assert (c1 = 0%Z) as -> by lia.
  destruct (A2 eq_refl) as [_ EA]. destruct (B2 eq_refl) as [_ EB].
  cbn [skipn] in EA, EB. congruence.
Qed.

Lemma no_count_no_change_witness :
  rewrite_text (lit "<a href='/CSS/a.css'>") blog
  = Ok (lit "<a href='/Cyb3Raya-Blog/CSS/a.css'>", 1%Z)
  /\ (0 <= 1)%Z.
Proof.
  split; [vm_compute; reflexivity|].
  apply (no_count_no_change (lit "<a href='/CSS/a.css'>") blog
                            (lit "<a href='/Cyb3Raya-Blog/CSS/a.css'>") 1%Z).
  vm_compute; reflexivity.
Defined.

Section NoMatch.

Import Re.

Lemma chr_sound (A : Type) (P : ascii -> bool) (c : cursor)
      (k : cursor -> option A) (x : A) :
  rmatch (Chr P) c k = Some x ->
  exists y aft, after c = y :: aft /\ P y = true.
Proof.
  cbn [rmatch]. destruct (after c) as [|y aft]; [discriminate|].
  destruct (P y) eqn:E; [|discriminate]. intros _. now exists y, aft.
Qed.

(** A match of [ATTR_PATTERN] holds a quote character. *)
Lemma attr_match_has_quote (c : cursor) (m : Match) (c' : cursor) :
  match3 ATTR_PATTERN c = Some (m, c') ->
  exists y, In y (after c) /\ is_quote y = true.
Proof.
  unfold match3. intros H.
  destruct (rmatch_sound _ _ _ _ _ H) as (m1 & c1 & H1 & Ha1 & _).
  destruct (rmatch_sound _ _ _ _ _ H1) as (m2 & c2 & H2 & Ha2 & _).
  destruct (chr_sound _ _ _ _ _ H2) as (y & aft & Ha3 & Hy).
  exists y. split; [|assumption].
  rewrite Ha1, Ha2, Ha3. apply in_or_app. right.
  apply in_or_app. right. now left.
Qed.

Lemma ichr_paren (y : ascii) :
  Ascii.eqb (Py.lower_char y) (Py.lower_char ")") = true -> y = ")"%char.
Proof.
  destruct y as [[] [] [] [] [] [] [] []]; intros H;
    solve [reflexivity | discriminate H].
Qed.

(** A match of [CSS_URL_PATTERN] holds a closing parenthesis. *)
Lemma css_match_has_paren (c : cursor) (m : Match) (c' : cursor) :
  match3 CSS_URL_PATTERN c = Some (m, c') -> In ")"%char (after c).
Proof.
  unfold match3. intros H.
  destruct (rmatch_sound _ _ _ _ _ H) as (m1 & c1 & H1 & Ha1 & _).
  destruct (rmatch_sound _ _ _ _ _ H1) as (m2 & c2 & H2 & Ha2 & _).
  cbn [CSS_URL_PATTERN g_suffix] in H2. rewrite rmatch_seq in H2.
  destruct (rmatch_sound _ _ _ _ _ H2) as (m3 & c3 & H3 & Ha3 & _).
  rewrite rmatch_seq in H3.
  destruct (rmatch_sound _ _ _ _ _ H3) as (m4 & c4 & H4 & Ha4 & _).
  destruct (chr_sound _ _ _ _ _ H4) as (y & aft & Ha5 & Hy).
  apply ichr_paren in Hy. subst y.
  rewrite Ha1, Ha2, Ha3, Ha4, Ha5.
  repeat (apply in_or_app; right). now left.
Qed.

Lemma scan_matches_none (M : Type) (mt : cursor -> option (M * cursor))
      (Q : ascii -> Prop) :
  (forall c m c', mt c = Some (m, c') -> exists y, In y (after c) /\ Q y) ->
  forall aft k bef,
    (forall y, In y aft -> ~ Q y) -> scan_matches mt k bef aft = [].
Proof.
  intros Hm. induction aft as [|x aft IH]; intros k bef Hq; [reflexivity|].
  assert (Hq' : forall y, In y aft -> ~ Q y)
    by (intros y Hy; apply Hq; now right).
  destruct k as [|k]; [|cbn [scan_matches]; now apply IH].
  rewrite scan_matches_try.
  destruct (mt {| before := bef; after := x :: aft |}) as [[m c']|] eqn:E;
    [|now apply IH].
  destruct (Hm _ _ _ E) as (y & Hy & HQ). cbn [after] in Hy.
  elim (Hq y Hy HQ).
Qed.

End NoMatch.

(** X10.  A text that holds no quote character and no closing parenthesis
    has no attribute match and no [url()] match: [rewrite_text] returns
    it unchanged with count 0, whatever the repository name. *)
Theorem plain_text_untouched (text repo : str) :
  (forall c, In c text -> is_quote c = false) ->
  ~ In ")"%char text ->
  rewrite_text text repo = Ok (text, 0%Z).
Proof.
  intros Hq Hp. apply rewrite_text_settled. unfold Re.finditer. split.
  - rewrite (scan_matches_none _ (Re.match3 ATTR_PATTERN)
               (fun y => is_quote y = true) attr_match_has_quote);
      [constructor|].
    intros y Hy. rewrite (Hq y Hy). discriminate.
  - rewrite (scan_matches_none _ (Re.match3 CSS_URL_PATTERN)
               (fun y => y = ")"%char));
      [constructor | |].
    + intros c m c' H. exists ")"%char. split; [|reflexivity].
      exact (css_match_has_paren _ _ _ H).
    + intros y Hy ->. contradiction.
Qed.

Lemma plain_text_untouched_witness :
  rewrite_text (lit "see /Cyb3Raya/x and href=/CSS/a.css") (lit "a\d")
  = Ok (lit "see /Cyb3Raya/x and href=/CSS/a.css", 0%Z).
Proof.
  apply (plain_text_untouched (lit "see /Cyb3Raya/x and href=/CSS/a.css")
                              (lit "a\d")).
  - intros c Hc. cbn in Hc.
    repeat (destruct Hc as [<- | Hc]; [reflexivity|]). contradiction.
  - intros Hc. cbn in Hc.
    repeat (destruct Hc as [Hc | Hc]; [discriminate Hc|]). contradiction.
Defined.

(** ** Names, suffixes and backups *)

Section Names.

Import Pathlib PyLib.

Lemma endswith_iff (s suf : str) :
  Py.endswith s suf = true <-> exists pre, s = pre ++ suf.
Proof.
  unfold Py.endswith. rewrite startswith_iff. split.
  - intros [r H]. exists (rev r).
    apply (f_equal (@rev ascii)) in H.
    rewrite rev_involutive, rev_app_distr, rev_involutive in H. exact H.
  - intros [pre ->]. exists (rev pre). apply rev_app_distr.
Qed.

Lemma path_eqb_eq (p q : Path) : path_eqb p q = true <-> p = q.
Proof.
  unfold path_eqb. revert q.
  induction p as [|x p IH]; intros [|y q]; cbn.
  - split; auto.
  - split; discriminate.
  - split; discriminate.
  - rewrite andb_true_iff, eqb_eq, IH. split.
    + intros [-> ->]; reflexivity.
    + intros H; injection H; auto.
Qed.

Lemma path_eqb_refl (p : Path) : path_eqb p p = true.
Proof. now apply path_eqb_eq. Qed.

Lemma path_eqb_neq (p q : Path) : p <> q -> path_eqb p q = false.
Proof.
  intros H. destruct (path_eqb p q) eqn:E; [|reflexivity].
  apply path_eqb_eq in E. contradiction.
Qed.

Lemma rfind_from_app (c : ascii) (s1 s2 : str) :
  forall i found,
    rfind_from c (s1 ++ s2) i found
    = rfind_from c s2 (i + length s1) (rfind_from c s1 i found).
Proof.
  induction s1 as [|x s1 IH]; intros i found; cbn [app rfind_from length].
  - now rewrite Nat.add_0_r.
  - rewrite IH. f_equal. lia.
Qed.

Lemma rfind_from_absent (c : ascii) (s : str) :
  ~ In c s -> forall i found, rfind_from c s i found = found.
Proof.
  induction s as [|x s IH]; intros H i found; [reflexivity|].
  cbn [rfind_from]. destruct (Ascii.eqb_spec x c) as [-> | _].
  - elim H. now left.
  - apply IH. intros Hc. apply H. now right.
Qed.

(** The last occurrence of a character. *)
Lemma rfind_last (c : ascii) (s1 s2 : str) :
  ~ In c s2 -> rfind (s1 ++ c :: s2) c = Some (length s1).
Proof.
  intros H. unfold rfind. rewrite rfind_from_app. cbn [rfind_from].
  rewrite Ascii.eqb_refl. now rewrite rfind_from_absent.
Qed.

Lemma rfind_from_some (c : ascii) (s : str) :
  forall i found j,
    rfind_from c s i found = Some j ->
    found = Some j
    \/ (i <= j /\ exists s1 s2, s = s1 ++ c :: s2 /\ j = i + length s1).
Proof.
  induction s as [|x s IH]; intros i found j H; cbn [rfind_from] in H.
  - now left.
  - destruct (IH _ _ _ H) as [E | (L & s1 & s2 & -> & ->)].
    + destruct (Ascii.eqb_spec x c) as [-> | _]; [|now left].
      injection E as <-. right. split; [lia|].
      exists [], s. split; [reflexivity | cbn; lia].
    + right. split; [lia|]. exists (x :: s1), s2.
      split; [reflexivity | cbn; lia].
Qed.

Lemma rfind_some (c : ascii) (s : str) (j : nat) :
  rfind s c = Some j ->
  exists s1 s2, s = s1 ++ c :: s2 /\ j = length s1.
Proof.
  unfold rfind. intros H.
  destruct (rfind_from_some _ _ _ _ _ H) as [E | (_ & s1 & s2 & E1 & E2)];
    [discriminate|].
  now exists s1, s2.
Qed.

(** The suffix of a path ends its name; it is empty or begins with a
    dot. *)
Lemma suffix_spec (p : Path) :
  exists stem, name p = stem ++ suffix p
               /\ (suffix p = []
                   \/ (stem <> [] /\ exists e, suffix p = "."%char :: e)).
Proof.
  unfold suffix. cbv zeta.
  destruct (rfind (name p) ".") as [i|] eqn:E.
  - destruct ((0 <? i) && (i <? length (name p) - 1)) eqn:B.
    + destruct (rfind_some _ _ _ E) as (s1 & s2 & Hn & ->).
      exists s1. rewrite Hn at 1.
      rewrite Hn, skipn_app, skipn_all, Nat.sub_diag. cbn [app skipn].
      split; [reflexivity|]. right. split; [|now exists s2].
      apply andb_true_iff in B. destruct B as [B _].
      apply Nat.ltb_lt in B. destruct s1; [cbn in B; lia | discriminate].
    + exists (name p). rewrite app_nil_r. auto.
  - exists (name p). rewrite app_nil_r. auto.
Qed.

Lemma name_child (dpath : Path) (nm : str) :
  nm <> lit "/" -> name (child dpath nm) = nm.
Proof.
  intros H. unfold name, child. rewrite rev_app_distr. cbn [rev app].
  apply eqb_neq in H. now rewrite H.
Qed.


(** A path with a name is its directory followed by its name. *)
Lemma path_split (p : Path) :
  name p <> [] -> p = child (removelast p) (name p).
Proof.
  unfold name, child. intros H.
  destruct (rev p) as [|x r] eqn:E; [contradiction|].
  apply (f_equal (@rev str)) in E. rewrite rev_involutive in E.
  cbn [rev] in E. subst p. rewrite removelast_last.
  destruct (Py.eqb x (lit "/")); [contradiction | reflexivity].
Qed.

(** The suffix of a name that ends with [.bak]. *)
Lemma suffix_bak (p : Path) (n : str) :
  name p = n ++ lit ".bak" ->
  suffix p = match n with [] => [] | _ :: _ => lit ".bak" end.
Proof.
  intros H. unfold suffix. cbv zeta. rewrite H.
  change (n ++ lit ".bak") with (n ++ "."%char :: lit "bak").
  rewrite rfind_last.
  2:{ cbn. intros [E | [E | [E | []]]]; discriminate. }
  rewrite length_app. cbn [length lit list_ascii_of_string].
  destruct n as [|c n].
  - reflexivity.
  - replace ((0 <? length (c :: n))
             && (length (c :: n) <? length (c :: n) + 4 - 1)) with true.
    + rewrite skipn_app, skipn_all, Nat.sub_diag. reflexivity.
    + symmetry. apply andb_true_iff. split; apply Nat.ltb_lt; cbn; lia.
Qed.

End Names.

Section Backups.

Import Pathlib PyLib.

Lemma existsb_slash_app (s t : str) :
  existsb (Ascii.eqb "/") (s ++ t) = false ->
  existsb (Ascii.eqb "/") s = false /\ existsb (Ascii.eqb "/") t = false.
Proof. rewrite existsb_app. apply orb_false_iff. Qed.

(** When [with_suffix] is given the suffix followed by [.bak] and
    returns, the path has a name and the result is its backup path. *)
Lemma with_suffix_bak (p b : Path) :
  with_suffix p (suffix p ++ lit ".bak") = Ok b ->
  name p <> [] /\ b = backup_of p.
Proof.
  unfold with_suffix. cbv zeta.
  destruct (existsb _ _); [discriminate|].
  destruct (_ || _); [discriminate|].
  destruct (Py.eqb (name p) []) eqn:En; [discriminate|].
  apply eqb_neq in En. intros H. split; [assumption|].
  injection H as <-. unfold backup_of, child. do 2 f_equal.
  destruct (suffix_spec p) as (stem & Hn & _).
  destruct (Py.eqb (suffix p) []) eqn:Es.
  - apply eqb_eq in Es. now rewrite Es.
  - rewrite Hn at 1 2. rewrite length_app, Nat.add_sub.
    rewrite firstn_app, firstn_all, Nat.sub_diag. cbn [firstn].
    rewrite app_nil_r, app_assoc, <- Hn. reflexivity.
Qed.

Lemma name_backup_of (p : Path) : name (backup_of p) = name p ++ lit ".bak".
Proof.
  unfold backup_of. apply name_child.
  intros H. apply (f_equal (@length ascii)) in H.
  rewrite length_app in H. cbn in H. lia.
Qed.

Lemma backup_of_inj (p q : Path) :
  name p <> [] -> name q <> [] -> backup_of p = backup_of q -> p = q.
Proof.
  intros Hp Hq H. unfold backup_of, child in H.
  apply app_inj_tail in H. destruct H as [Hd Hn].
  apply app_inv_tail in Hn.
  rewrite (path_split p Hp), (path_split q Hq). congruence.
Qed.

Lemma bak_not_text (q : Path) :
  Py.endswith (name q) (lit ".bak") = true ->
  FixPathsMain.is_probably_text_file q = false.
Proof.
  intros H. apply endswith_iff in H. destruct H as [n Hn].
  unfold FixPathsMain.is_probably_text_file.
  rewrite (suffix_bak q n Hn). now destruct n.
Qed.

(** For a path with a name without a slash, [with_suffix] with the suffix
    followed by [.bak] returns the backup path. *)
Lemma with_suffix_named (p : Path) :
  named p -> with_suffix p (suffix p ++ lit ".bak") = Ok (backup_of p).
Proof.
  intros [Hn Hs]. unfold with_suffix. cbv zeta.
  destruct (suffix_spec p) as (stem & En & Hx).
  assert (S1 : existsb (Ascii.eqb "/") (suffix p ++ lit ".bak")
               = false).
  { rewrite En in Hs. apply existsb_slash_app in Hs.
    rewrite existsb_app, (proj2 Hs). reflexivity. }
  rewrite S1.
  assert (S2 : negb (Py.eqb (suffix p ++ lit ".bak") [])
               && negb (Py.startswith (suffix p ++ lit ".bak")
                                      (lit "."))
               || Py.eqb (suffix p ++ lit ".bak") (lit ".")
               = false).
  { destruct Hx as [-> | (_ & e & ->)]; [reflexivity|].
    cbn. destruct e; reflexivity. }
  rewrite S2. apply eqb_neq in Hn. rewrite Hn. f_equal.
  unfold backup_of, child. do 2 f_equal.
  destruct (Py.eqb (suffix p) []) eqn:Es.
  - apply eqb_eq in Es. now rewrite Es.
  - rewrite En at 1 2. rewrite length_app, Nat.add_sub.
    rewrite firstn_app, firstn_all, Nat.sub_diag. cbn [firstn].
    rewrite app_nil_r, app_assoc, <- En. reflexivity.
Qed.


Lemma bak_backup_of (p : Path) :
  Py.endswith (name (backup_of p)) (lit ".bak") = true.
Proof. rewrite name_backup_of. apply endswith_iff. now exists (name p). Qed.

Lemma backup_of_neq (p : Path) :
  Py.endswith (name p) (lit ".bak") = false -> backup_of p <> p.
Proof. intros H E. rewrite <- E, bak_backup_of in H. discriminate. Qed.

Lemma lstrip_chars_in (s chars : str) (x : ascii) :
  In x (lstrip_chars s chars) -> In x s.
Proof.
  induction s as [|c s IH]; cbn [lstrip_chars]; [auto|].
  destruct (existsb _ chars); [|auto]. intros H. right. auto.
Qed.

Lemma strip_chars_in (s chars : str) (x : ascii) :
  In x (strip_chars s chars) -> In x s.
Proof.
  unfold strip_chars, rstrip_chars. intros H. apply in_rev in H.
  apply lstrip_chars_in in H. apply in_rev in H.
  now apply lstrip_chars_in in H.
Qed.

Lemma strip_chars_plain (s chars : str) :
  plain s -> plain (strip_chars s chars).
Proof.
  unfold plain. intros H.
  destruct (existsb _ (strip_chars s chars)) eqn:E; [|reflexivity].
  apply existsb_exists in E. destruct E as (x & Hx & Ex).
  rewrite <- H. symmetry. apply existsb_exists. exists x.
  split; [now apply strip_chars_in in Hx | assumption].
Qed.

End Backups.

(** X11.  For a path whose name is not empty and holds no slash,
    [with_suffix] with the suffix followed by [.bak] returns the backup
    path: the same directory, and the whole name of the file followed by
    [.bak], so that [index.html] is backed up as [index.html.bak]. *)
Theorem backup_beside_file (p : Pathlib.Path) :
  named p ->
  Pathlib.with_suffix p (Pathlib.suffix p ++ lit ".bak") = Ok (backup_of p).
Proof. apply with_suffix_named. Qed.

Lemma backup_beside_file_witness :
  named [lit "/"; lit "site"; lit "index.html"]
  /\ Pathlib.with_suffix [lit "/"; lit "site"; lit "index.html"]
                         (lit ".html" ++ lit ".bak")
     = Ok [lit "/"; lit "site"; lit "index.html.bak"].
Proof.
  split; [split; [discriminate | reflexivity]|].
  apply (backup_beside_file [lit "/"; lit "site"; lit "index.html"]).
  split; [discriminate | reflexivity].
Defined.

(** X12.  A backup is never taken as input again.  Whenever [with_suffix]
    returns the backup path, its name ends with [.bak], which is the test
    by which engine 1 passes over a file, and its suffix is not a text
    extension, so that [is_probably_text_file] of engine 2 rejects it;
    and two named files never share a backup path. *)
Theorem backup_not_input (p b : Pathlib.Path) :
  Pathlib.with_suffix p (Pathlib.suffix p ++ lit ".bak") = Ok b ->
  Py.endswith (Pathlib.name b) (lit ".bak") = true
  /\ FixPathsMain.is_probably_text_file b = false
  /\ (forall p',
         Pathlib.with_suffix p' (Pathlib.suffix p' ++ lit ".bak") = Ok b ->
         p' = p).
Proof.
  intros H. destruct (with_suffix_bak p b H) as [Hn ->].
  assert (E : Py.endswith (Pathlib.name (backup_of p)) (lit ".bak") = true).
  { rewrite name_backup_of. apply endswith_iff. now exists (Pathlib.name p). }
  split; [exact E|]. split; [now apply bak_not_text|].
  intros p' H'. destruct (with_suffix_bak p' _ H') as [Hn' Hb].
  now apply backup_of_inj.
Qed.

Lemma backup_not_input_witness :
  Pathlib.with_suffix [lit "site"; lit "a.css"] (lit ".css" ++ lit ".bak")
  = Ok [lit "site"; lit "a.css.bak"]
  /\ FixPathsMain.is_probably_text_file [lit "site"; lit "a.css.bak"] = false.
Proof.
  split; [reflexivity|].
  apply (backup_not_input [lit "site"; lit "a.css"]
                          [lit "site"; lit "a.css.bak"]).
  reflexivity.
Defined.

(** X13.  [is_probably_text_file] looks at the last extension only and
    ignores its letter case: a name made of a non-empty stem, a dot and a
    non-empty extension without a dot is a text file exactly when the
    lower-cased extension is one of [TEXT_EXTS]; a name whose only dot is
    its first character has no suffix and is never a text file. *)
Theorem text_file_by_last_extension (dir : Pathlib.Path) (stem ext : str) :
  ext <> [] ->
  ~ In "."%char ext ->
  (stem <> [] ->
   FixPathsMain.is_probably_text_file
     (Pathlib.child dir (stem ++ "."%char :: ext))
   = existsb (Py.eqb (Py.lower ("."%char :: ext))) FixPathsMain.TEXT_EXTS)
  /\ FixPathsMain.is_probably_text_file (Pathlib.child dir ("."%char :: ext))
     = false.
Proof.
  intros He Hd.
  assert (N : forall s, Pathlib.name (Pathlib.child dir (s ++ "."%char :: ext))
                        = s ++ "."%char :: ext).
  { intros s. apply name_child. intros H.
    apply (f_equal (@length ascii)) in H. rewrite length_app in H.
    destruct ext; [contradiction | cbn in H; lia]. }
  split.
  - intros Hs. unfold FixPathsMain.is_probably_text_file, Pathlib.suffix.
    cbv zeta. rewrite N, (rfind_last _ stem ext Hd).
    replace ((0 <? length stem)
             && (length stem <? length (stem ++ "."%char :: ext) - 1))
      with true.
    + now rewrite skipn_app, skipn_all, Nat.sub_diag.
    + symmetry. apply andb_true_iff. rewrite length_app.
      destruct stem; [contradiction|]. destruct ext; [contradiction|].
      split; apply Nat.ltb_lt; cbn; lia.
  - unfold FixPathsMain.is_probably_text_file, Pathlib.suffix. cbv zeta.
    pose proof (N []) as N0. cbn [app] in N0. rewrite N0.
    pose proof (rfind_last "." [] ext Hd) as R0. cbn [app] in R0.
    rewrite R0. reflexivity.
Qed.

Lemma text_file_by_last_extension_witness :
  FixPathsMain.is_probably_text_file [lit "site"; lit "Index.old.HTML"]
  = true
  /\ FixPathsMain.is_probably_text_file [lit "site"; lit ".html"] = false.
Proof.
  destruct (text_file_by_last_extension [lit "site"] (lit "Index.old")
              (lit "HTML")) as [H1 _].
  - discriminate.
  - cbn. intros [E | [E | [E | [E | []]]]]; discriminate.
  - split; [|reflexivity].
    exact (eq_trans (H1 ltac:(discriminate)) eq_refl).
Defined.

(** ** Files, their names and their contents *)

Section Files.

Import Pathlib Disk.

Variable sys : system.

Lemma store_same (d : disk) (i : inode) (f : file) :
  store d i f i = Some f.
Proof. unfold store. now rewrite Nat.eqb_refl. Qed.

Lemma store_other (d : disk) (i j : inode) (f : file) :
  j <> i -> store d i f j = d j.
Proof. intros H. unfold store. apply Nat.eqb_neq in H. now rewrite H. Qed.

(** A write, whether it goes through or not, changes no file but the one
    that the path names, and leaves a file there if it changes it. *)
Lemma write_frame (d : disk) (p : Path) (content : str) (j : inode) :
  disk_after (write_text sys d p content) j = d j
  \/ (disk_after (write_text sys d p content) j <> None
      /\ j = file_at sys p).
Proof.
  unfold write_text.
  destruct (on_write sys p); cbn [disk_after]; [| now left |];
    (destruct (Nat.eq_dec j (file_at sys p)) as [-> | N];
     [right; rewrite store_same; split; [discriminate | reflexivity]
     | left; now apply store_other]).
Qed.

Lemma write_text_ok (d : disk) (p : Path) (content : str) :
  on_write sys p = Written ->
  write_text sys d p content
  = Done (store d (file_at sys p) (Utf8 content)).
Proof. intros H. unfold write_text. now rewrite H. Qed.



End Files.

(** ** Engine 1: what [main] does to the files *)

Section PagesMain.

Import Pathlib Disk FixPagesPathsMain.

Variable sys : system.
Variable a : args.
Variable repo : str.

Lemma inputs_cons (g : Path) (rest : list Path) :
  inputs (g :: rest)
  = if Py.endswith (name g) (lit ".bak") then inputs rest
    else g :: inputs rest.
Proof.
  unfold inputs. cbn [filter].
  now destruct (Py.endswith (name g) (lit ".bak")).
Qed.

Lemma inputs_in (fp : Path) (files : list Path) :
  In fp (inputs files)
  <-> In fp files /\ Py.endswith (name fp) (lit ".bak") = false.
Proof.
  unfold inputs. rewrite filter_In.
  now destruct (Py.endswith (name fp) (lit ".bak")).
Qed.

Lemma pages_frame_refl (files : list Path) (d : disk) :
  pages_frame sys files d d.
Proof. intros i. now left. Qed.

Lemma pages_frame_trans (files : list Path) (d1 d2 d3 : disk) :
  pages_frame sys files d1 d2 -> pages_frame sys files d2 d3 ->
  pages_frame sys files d1 d3.
Proof.
  intros H12 H23 i. destruct (H23 i) as [E | (U3 & H3)].
  - rewrite E. apply H12.
  - destruct (H12 i) as [E | (U2 & H2)].
    + right. split; [assumption|]. now rewrite <- E.
    + right. split; [assumption|]. exact H2.
Qed.

Lemma pages_frame_more (g : Path) (files : list Path) (d d' : disk) :
  pages_frame sys files d d' -> pages_frame sys (g :: files) d d'.
Proof.
  intros H i. destruct (H i) as [E | (U & K)]; [now left|].
  right. split; [assumption|].
  assert (M : forall fp, In fp (inputs files) -> In fp (inputs (g :: files))).
  { intros fp Hf. apply inputs_in in Hf. apply inputs_in.
    split; [now right | apply Hf]. }
  destruct K as [(N & fp & Hf & E) | (T & fp & Hf & E)].
  - left. split; [assumption|]. exists fp. auto.
  - right. split; [assumption|]. exists fp. auto.
Qed.

(** One turn of the loop changes no file but the one read, and the one
    that its backup path names when there is none yet. *)
Lemma process_frame (fp : Path) (rest : list Path) (st : state) :
  pages_frame sys (fp :: rest) (files_now st)
              (files_now (state_of (process sys a repo fp st))).
Proof.
  unfold process.
  destruct (Py.endswith (name fp) (lit ".bak")) eqn:Eb;
    [apply pages_frame_refl|].
  assert (Hin : In fp (inputs (fp :: rest))).
  { apply inputs_in. split; [now left | assumption]. }
  unfold read_text_utf8.
  destruct (unreadable sys fp); [apply pages_frame_refl|].
  destruct (files_now st (file_at sys fp)) as [[t | b]|] eqn:Ef;
    try apply pages_frame_refl.
  destruct (FixPagesPaths.rewrite_text (PyLib.universal_newlines t) repo)
    as [[updated cnt]|]; [|apply pages_frame_refl].
  destruct (cnt =? 0)%Z; [apply pages_frame_refl|]. cbv zeta.
  destruct (a_dry_run a); [apply pages_frame_refl|].
  assert (Last : forall d1,
             pages_frame sys (fp :: rest) (files_now st) d1 ->
             d1 (file_at sys fp) <> None ->
             pages_frame sys (fp :: rest) (files_now st)
                         (disk_after (write_text sys d1 fp updated))).
  { intros d1 F1 K1 i.
    destruct (write_frame sys d1 fp updated i) as [E | (U & ->)].
    - rewrite E. apply F1.
    - right. split; [assumption|]. right.
      split; [now exists t | now exists fp]. }
  assert (Here : files_now st (file_at sys fp) <> None)
    by (rewrite Ef; discriminate).
  destruct (a_no_backup a); cbn [negb].
  - specialize (Last _ (pages_frame_refl _ _) Here).
    now destruct (write_text sys (files_now st) fp updated).
  - destruct (with_suffix fp (suffix fp ++ lit ".bak")) as [bak|] eqn:Ew;
      [|apply pages_frame_refl].
    destruct (with_suffix_bak fp bak Ew) as [_ ->].
    unfold exists_.
    destruct (files_now st (file_at sys (backup_of fp))) eqn:Ex;
      cbn [negb].
    + specialize (Last _ (pages_frame_refl _ _) Here).
      now destruct (write_text sys (files_now st) fp updated).
    + assert (F1 : pages_frame
                     sys (fp :: rest) (files_now st)
                     (disk_after
                        (write_text sys (files_now st) (backup_of fp)
                                    (PyLib.universal_newlines t)))).
      { intros i.
        destruct (write_frame sys (files_now st) (backup_of fp)
                              (PyLib.universal_newlines t) i)
          as [E | (U & ->)]; [now left|].
        right. split; [assumption|]. left.
        split; [assumption | now exists fp]. }
      assert (K1 : disk_after
                     (write_text sys (files_now st) (backup_of fp)
                                 (PyLib.universal_newlines t))
                     (file_at sys fp) <> None).
      { destruct (F1 (file_at sys fp)) as [E | (U & _)];
          [now rewrite E | assumption]. }
      destruct (write_text sys (files_now st) (backup_of fp)
                           (PyLib.universal_newlines t)) as [d1 | d1];
        cbn [disk_after] in *; [|exact F1].
      specialize (Last d1 F1 K1).
      now destruct (write_text sys d1 fp updated).
Qed.

Lemma loop_frame (files : list Path) :
  forall st,
    pages_frame sys files (files_now st)
                (files_now (state_of (loop sys a repo files st))).
Proof.
  induction files as [|fp rest IH]; intros st; [apply pages_frame_refl|].
  cbn [loop]. pose proof (process_frame fp rest st) as H.
  destruct (process sys a repo fp st) as [st' | st']; cbn [state_of] in H.
  - eapply pages_frame_trans; [exact H|].
    apply pages_frame_more, IH.
  - exact H.
Qed.

(** What the frame leaves alone. *)
Lemma frame_kept (files : list Path) (d d' : disk) (i : inode) :
  pages_frame sys files d d' -> d i <> None -> d' i <> None.
Proof.
  intros H Hi. destruct (H i) as [E | (U & _)]; [now rewrite E | exact U].
Qed.

Lemma frame_untouched (files : list Path) (d d' : disk) (i : inode) :
  pages_frame sys files d d' ->
  (forall fp, In fp (inputs files) -> file_at sys fp <> i) ->
  (d i <> None
   \/ forall fp, In fp (inputs files) -> file_at sys (backup_of fp) <> i) ->
  d' i = d i.
Proof.
  intros H N1 N2. destruct (H i) as [E | (_ & K)]; [exact E|].
  destruct K as [(N & fp & Hf & E) | (_ & fp & Hf & E)].
  - destruct N2 as [N2 | N2]; [contradiction|].
    exfalso. exact (N2 fp Hf E).
  - exfalso. exact (N1 fp Hf E).
Qed.

Lemma process_dry (fp : Path) (st : state) :
  a_dry_run a = true ->
  files_now (state_of (process sys a repo fp st)) = files_now st.
Proof.
  intros Hd. unfold process.
  destruct (Py.endswith (name fp) (lit ".bak")); [reflexivity|].
  destruct (read_text_utf8 sys (files_now st) fp); try reflexivity.
  destruct (FixPagesPaths.rewrite_text s repo) as [[updated cnt]|];
    [|reflexivity].
  destruct (cnt =? 0)%Z; [reflexivity|]. cbv zeta. now rewrite Hd.
Qed.

Lemma loop_dry (files : list Path) :
  a_dry_run a = true ->
  forall st,
    files_now (state_of (loop sys a repo files st)) = files_now st.
Proof.
  intros Hd. induction files as [|fp rest IH]; intros st; [reflexivity|].
  cbn [loop]. pose proof (process_dry fp st Hd) as H.
  destruct (process sys a repo fp st) as [st' | st']; cbn [state_of] in H.
  - rewrite IH. exact H.
  - exact H.
Qed.

(** A file that is not UTF-8 text is not changed by a turn of the loop,
    even where a write breaks. *)
Lemma frame_raw (files : list Path) (d d' : disk) (i : inode) (b : str) :
  pages_frame sys files d d' -> d i = Some (Raw b) -> d' i = Some (Raw b).
Proof.
  intros H Hi. destruct (H i) as [E | (_ & K)]; [now rewrite E|].
  destruct K as [(N & _) | ((t & T) & _)]; congruence.
Qed.

Lemma process_next (fp : Path) (st : state) :
  plain repo ->
  (Py.endswith (name fp) (lit ".bak") = false ->
   named fp /\ usable sys fp /\ files_now st (file_at sys fp) <> None) ->
  exists st', process sys a repo fp st = Next st'.
Proof.
  intros Hp H. unfold process.
  destruct (Py.endswith (name fp) (lit ".bak")); [eauto|].
  destruct (H eq_refl) as (Hn & (Hr & Hw & Hb) & Hf).
  unfold read_text_utf8. rewrite Hr.
  destruct (files_now st (file_at sys fp)) as [[t | b]|];
    [| eauto | contradiction].
  destruct (rewrite_text_total (PyLib.universal_newlines t) repo Hp)
    as (out & n & ->).
  destruct (n =? 0)%Z; [eauto|]. cbv zeta.
  destruct (a_dry_run a); [eauto|].
  destruct (a_no_backup a); cbn [negb].
  - rewrite (write_text_ok sys _ _ _ Hw). eauto.
  - rewrite (with_suffix_named fp Hn).
    destruct (negb (exists_ sys (files_now st) (backup_of fp)));
      [rewrite (write_text_ok sys _ _ _ Hb)|];
      rewrite (write_text_ok sys _ _ _ Hw); eauto.
Qed.

Lemma process_result (fp : Path) (st : state) (t updated : str) (cnt : Z) :
  a_dry_run a = false ->
  Py.endswith (name fp) (lit ".bak") = false ->
  named fp -> usable sys fp ->
  files_now st (file_at sys fp) = Some (Utf8 t) ->
  rewrite_text (PyLib.universal_newlines t) repo = Ok (updated, cnt) ->
  files_now (state_of (process sys a repo fp st)) (file_at sys fp)
  = Some (Utf8 (if (cnt =? 0)%Z then t else updated))
  /\ (cnt <> 0%Z -> a_no_backup a = false ->
      file_at sys (backup_of fp) <> file_at sys fp ->
      files_now (state_of (process sys a repo fp st))
                (file_at sys (backup_of fp))
      = match files_now st (file_at sys (backup_of fp)) with
        | Some f => Some f
        | None => Some (Utf8 (PyLib.universal_newlines t))
        end).
Proof.
  intros Hd Hb Hn (Hr & Hw & Hk) Hf Hx. unfold process, read_text_utf8.
  rewrite Hb, Hr, Hf.
  change (FixPagesPaths.rewrite_text (PyLib.universal_newlines t) repo)
    with (rewrite_text (PyLib.universal_newlines t) repo).
  rewrite Hx.
  destruct (cnt =? 0)%Z eqn:Ec.
  { apply Z.eqb_eq in Ec. cbn [state_of]. split; [assumption|].
    intros C. contradiction. }
  cbv zeta. rewrite Hd.
  destruct (a_no_backup a); cbn [negb].
  { rewrite (write_text_ok sys _ _ _ Hw). cbn [state_of files_now].
    split; [apply store_same | discriminate]. }
  rewrite (with_suffix_named fp Hn). unfold exists_.
  destruct (files_now st (file_at sys (backup_of fp))) eqn:Ex; cbn [negb].
  - rewrite (write_text_ok sys _ _ _ Hw). cbn [state_of files_now].
    split; [apply store_same|]. intros _ _ N.
    now rewrite (store_other _ _ _ _ N).
  - rewrite (write_text_ok sys _ _ _ Hk), (write_text_ok sys _ _ _ Hw).
    cbn [state_of files_now].
    split; [apply store_same|]. intros _ _ N.
    rewrite (store_other _ _ _ _ N). apply store_same.
Qed.

Lemma loop_next (files : list Path) :
  plain repo ->
  forall st,
    (forall fp, In fp (inputs files) ->
                named fp /\ usable sys fp
                /\ files_now st (file_at sys fp) <> None) ->
    exists st', loop sys a repo files st = Next st'.
Proof.
  intros Hp. induction files as [|g rest IH]; intros st H;
    cbn [loop]; [eauto|].
  destruct (process_next g st Hp) as [st1 E].
  { intros Eb. apply H. apply inputs_in. split; [now left | assumption]. }
  pose proof (process_frame g rest st) as F. rewrite E in *.
  cbn [state_of] in F. apply IH. intros fp Hf.
  assert (Hf' : In fp (inputs (g :: rest))).
  { apply inputs_in in Hf. apply inputs_in. split; [now right | apply Hf]. }
  destruct (H fp Hf') as (Hn & Hu & Hx).
  split; [assumption|]. split; [assumption|].
  exact (frame_kept _ _ _ _ F Hx).
Qed.

Lemma loop_result (files : list Path) :
  a_dry_run a = false ->
  NoDup (map (file_at sys) (inputs files)) ->
  (forall fp g, In fp (inputs files) -> In g (inputs files) ->
                file_at sys (backup_of fp) <> file_at sys g) ->
  (forall fp g, In fp (inputs files) -> In g (inputs files) ->
                file_at sys (backup_of fp) = file_at sys (backup_of g) ->
                fp = g) ->
  (forall fp, In fp (inputs files) -> named fp /\ usable sys fp) ->
  forall st st',
    loop sys a repo files st = Next st' ->
    forall fp t updated cnt,
      In fp (inputs files) ->
      files_now st (file_at sys fp) = Some (Utf8 t) ->
      rewrite_text (PyLib.universal_newlines t) repo = Ok (updated, cnt) ->
      files_now st' (file_at sys fp)
      = Some (Utf8 (if (cnt =? 0)%Z then t else updated))
      /\ (cnt <> 0%Z -> a_no_backup a = false ->
          files_now st' (file_at sys (backup_of fp))
          = match files_now st (file_at sys (backup_of fp)) with
            | Some f => Some f
            | None => Some (Utf8 (PyLib.universal_newlines t))
            end).
Proof.
  intros Hd. induction files as [|g rest IH];
    intros H1 H2 H3 H4 st st' L fp t updated cnt Hin Hf Hx;
    [destruct Hin|].
  cbn [loop] in L.
  destruct (process sys a repo g st) as [st1 | st1] eqn:P; [|discriminate].
  pose proof (process_frame g [] st) as Fg.
  rewrite P in Fg. cbn [state_of] in Fg.
  pose proof (loop_frame rest st1) as Fr.
  rewrite L in Fr. cbn [state_of] in Fr.
  rewrite inputs_cons in *.
  destruct (Py.endswith (name g) (lit ".bak")) eqn:Eb.
  { assert (st1 = st) as ->.
    { unfold process in P. rewrite Eb in P. now injection P. }
    now apply (IH H1 H2 H3 H4 st st' L). }
  cbn [map] in H1. inversion H1 as [|? ? Hg H1']; subst.
  assert (Ng : forall fp', In fp' (inputs rest) ->
                           file_at sys fp' <> file_at sys g).
  { intros fp' Hf' E. apply Hg. rewrite <- E. now apply in_map. }
  assert (Gin : In g (inputs [g])).
  { rewrite inputs_cons, Eb. now left. }
  assert (Gonly : forall fp', In fp' (inputs [g]) -> fp' = g).
  { intros fp'. rewrite inputs_cons, Eb. now intros [<- | []]. }
  destruct Hin as [<- | Hin].
  - destruct (H4 g (or_introl eq_refl)) as [Hn Hu].
    destruct (process_result g st t updated cnt Hd Eb Hn Hu Hf Hx)
      as [R1 R2].
    rewrite P in R1, R2. cbn [state_of] in R1, R2.
    assert (T1 : files_now st' (file_at sys g)
                 = files_now st1 (file_at sys g)).
    { apply (frame_untouched _ _ _ _ Fr); [exact Ng|].
      left. rewrite R1. discriminate. }
    split; [now rewrite T1|]. intros C B.
    specialize (R2 C B (H2 g g (or_introl eq_refl) (or_introl eq_refl))).
    assert (T2 : files_now st' (file_at sys (backup_of g))
                 = files_now st1 (file_at sys (backup_of g))).
    { apply (frame_untouched _ _ _ _ Fr).
      - intros fp' Hf' E. symmetry in E. revert E.
        apply H2; [now left | now right].
      - right. intros fp' Hf' E.
        apply H3 in E; [| now right | now left]. subst fp'.
        apply (Ng g Hf'). reflexivity. }
    now rewrite T2.
  - assert (T1 : files_now st1 (file_at sys fp)
                 = files_now st (file_at sys fp)).
    { apply (frame_untouched _ _ _ _ Fg).
      - intros fp' Hf'. rewrite (Gonly _ Hf'). intros E.
        apply (Ng fp Hin). now symmetry.
      - left. rewrite Hf. discriminate. }
    assert (T2 : files_now st1 (file_at sys (backup_of fp))
                 = files_now st (file_at sys (backup_of fp))).
    { apply (frame_untouched _ _ _ _ Fg).
      - intros fp' Hf'. rewrite (Gonly _ Hf'). intros E. symmetry in E.
        revert E. apply H2; [now right | now left].
      - right. intros fp' Hf'. rewrite (Gonly _ Hf'). intros E.
        apply H3 in E; [| now left | now right]. subst fp.
        apply (Ng g Hin). reflexivity. }
    rewrite <- T2. apply (IH H1'); try assumption.
    + intros x y Hx' Hy'. apply H2; now right.
    + intros x y Hx' Hy'. apply H3; now right.
    + intros x Hx'. apply H4. now right.
    + now rewrite T1.
Qed.

Lemma total_app (l1 l2 : list (Path * Z)) :
  total (l1 ++ l2) = (total l1 + total l2)%Z.
Proof.
  unfold total. induction l1 as [|x l1 IH]; cbn [app map fold_right];
    [reflexivity | lia].
Qed.

(** What a turn that ends normally adds to the two totals. *)
Lemma process_totals (fp : Path) (st st' : state) :
  process sys a repo fp st = Next st' ->
  total_files st'
  = (total_files st
     + Z.of_nat (length (fix_of sys repo (files_now st) fp)))%Z
  /\ total_changes st'
     = (total_changes st + total (fix_of sys repo (files_now st) fp))%Z.
Proof.
  unfold process, fix_of, read_text_utf8.
  destruct (Py.endswith (name fp) (lit ".bak")).
  { intros E. injection E as <-. cbn. split; lia. }
  destruct (unreadable sys fp); [discriminate|].
  destruct (files_now st (file_at sys fp)) as [[t | b]|]; [| |discriminate].
  2:{ intros E. injection E as <-. cbn. split; lia. }
  change (FixPagesPaths.rewrite_text (PyLib.universal_newlines t) repo)
    with (rewrite_text (PyLib.universal_newlines t) repo).
  destruct (rewrite_text (PyLib.universal_newlines t) repo)
    as [[updated cnt]|]; [|discriminate].
  destruct (cnt =? 0)%Z.
  { intros E. injection E as <-. cbn. split; lia. }
  cbv zeta. destruct (a_dry_run a).
  { intros E. injection E as <-. unfold total. cbn. split; lia. }
  match goal with
  | |- context [match ?w with Failed _ => _ | Done _ => _ end] =>
      destruct w as [d1 | d1]; [|discriminate]
  end.
  destruct (write_text sys d1 fp updated); [|discriminate].
  intros E. injection E as <-. unfold total. cbn. split; lia.
Qed.

Lemma fixes_ext (d d' : disk) (files : list Path) :
  (forall fp, In fp (inputs files) ->
              d (file_at sys fp) = d' (file_at sys fp)) ->
  fixes sys repo d files = fixes sys repo d' files.
Proof.
  unfold fixes. induction files as [|fp rest IH]; intros H;
    [reflexivity|].
  cbn [flat_map]. rewrite IH.
  - f_equal. unfold fix_of.
    destruct (Py.endswith (name fp) (lit ".bak")) eqn:Eb; [reflexivity|].
    rewrite H; [reflexivity|]. apply inputs_in. split; [now left | exact Eb].
  - intros fp' Hf'. apply H. apply inputs_in in Hf'. apply inputs_in.
    split; [now right | apply Hf'].
Qed.

(** The totals of a run that ends normally: the changes that the files
    at its start call for, each file read as if it were the first. *)
Lemma loop_totals (files : list Path) :
  NoDup (map (file_at sys) (inputs files)) ->
  forall st st',
    (forall fp, In fp (inputs files) ->
                files_now st (file_at sys fp) <> None) ->
    loop sys a repo files st = Next st' ->
    total_files st'
    = (total_files st
       + Z.of_nat (length (fixes sys repo (files_now st) files)))%Z
    /\ total_changes st'
       = (total_changes st + total (fixes sys repo (files_now st) files))%Z.
Proof.
  induction files as [|g rest IH]; intros Hnd st st' Hx L.
  { injection L as <-. cbn. split; lia. }
  cbn [loop] in L.
  destruct (process sys a repo g st) as [st1 | st1] eqn:P; [|discriminate].
  destruct (process_totals g st st1 P) as (C1 & C2).
  pose proof (process_frame g [] st) as Fg.
  rewrite P in Fg. cbn [state_of] in Fg.
  assert (M : forall fp, In fp (inputs rest) -> In fp (inputs (g :: rest))).
  { intros fp Hf. apply inputs_in in Hf. apply inputs_in.
    split; [now right | apply Hf]. }
  assert (Hnd' : NoDup (map (file_at sys) (inputs rest))).
  { rewrite inputs_cons in Hnd.
    destruct (Py.endswith (name g) (lit ".bak")); [assumption|].
    now inversion Hnd. }
  assert (E : forall fp, In fp (inputs rest) ->
                         files_now st1 (file_at sys fp)
                         = files_now st (file_at sys fp)).
  { intros fp Hf. apply (frame_untouched _ _ _ _ Fg).
    - intros fp'. rewrite inputs_cons.
      destruct (Py.endswith (name g) (lit ".bak")) eqn:Eb; [intros []|].
      intros [<- | []] E. rewrite inputs_cons, Eb in Hnd.
      inversion Hnd as [|? ? Hg _]; subst. apply Hg. rewrite E.
      now apply in_map.
    - left. apply Hx, M, Hf. }
  destruct (IH Hnd' st1 st') as (I1 & I2); [|exact L|].
  { intros fp Hf. rewrite (E fp Hf). apply Hx, M, Hf. }
  rewrite (fixes_ext _ _ rest E) in I1, I2.
  unfold fixes in *. cbn [flat_map].
  rewrite length_app, total_app. split; lia.
Qed.

End PagesMain.

(** ** Engine 2: what [main] does to the files *)

Section PathsMain.

Import Pathlib Disk FixPathsMain.

Variable sys : system.
Variable a : args.

Lemma dirtree_nested_ind (P : dirtree -> Prop) :
  (forall filenames subdirs,
      Forall (fun x => P (snd x)) subdirs -> P (Dir filenames subdirs)) ->
  forall t, P t.
Proof.
  intros H. fix IH 1. intros [filenames subdirs]. apply H.
  induction subdirs as [|[nm sub] l IHl]; constructor;
    [apply IH | exact IHl].
Qed.

Lemma run_app (l1 l2 : list (Path * str)) (st : state) :
  run sys a (l1 ++ l2) st
  = match run sys a l1 st with
    | Next st' => run sys a l2 st'
    | Abort st' => Abort st'
    end.
Proof.
  revert st. induction l1 as [|[dp nm] l1 IH]; intros st; [reflexivity|].
  cbn [run app]. destruct (process sys a dp nm st);
    [apply IH | reflexivity].
Qed.

Lemma for_names_run (dpath : Path) (filenames : list str) (st : state) :
  for_names sys a dpath filenames st
  = run sys a (map (pair dpath) filenames) st.
Proof.
  revert st. induction filenames as [|nm l IH]; intros st; [reflexivity|].
  cbn [for_names run map]. destruct (process sys a dpath nm st);
    [apply IH | reflexivity].
Qed.

(** The walk is the loop body run over the entries it comes to. *)
Lemma walk_run (t : dirtree) :
  forall dpath st, walk sys a dpath t st = run sys a (visited dpath t) st.
Proof.
  induction t as [filenames subdirs IH] using dirtree_nested_ind.
  intros dpath st. cbn [walk visited].
  destruct (should_skip_dir dpath); [reflexivity|].
  rewrite run_app, for_names_run.
  destruct (run sys a (map (pair dpath) filenames) st) as [st' | st'];
    [|reflexivity].
  revert st'. induction subdirs as [|[nm sub] l IHl]; intros st';
    [reflexivity|].
  inversion IH as [|x l' Hsub Hl]; subst. cbn [snd] in Hsub.
  rewrite run_app, Hsub.
  destruct (run sys a (visited (child dpath nm) sub) st') as [st'' | st''];
    [apply (IHl Hl) | reflexivity].
Qed.








Lemma load_text_decoded (d : disk) (path : Path) :
  load_text sys d path
  = if unreadable sys path then OSError
    else match d (file_at sys path) with
         | Some f => Text (decoded f)
         | None => OSError
         end.
Proof.
  unfold load_text, read_text_utf8, read_text_latin1.
  destruct (unreadable sys path); [reflexivity|].
  destruct (d (file_at sys path)) as [[t | b]|]; reflexivity.
Qed.


Lemma text_not_bak (path : Path) :
  is_probably_text_file path = true ->
  Py.endswith (name path) (lit ".bak") = false.
Proof.
  intros H. destruct (Py.endswith (name path) (lit ".bak")) eqn:E;
    [|reflexivity].
  rewrite (bak_not_text _ E) in H. discriminate.
Qed.





Lemma entry_dry (dpath : Path) (nm : str) (st : state) :
  a_dry_run a = true ->
  files_now (state_of (process sys a dpath nm st)) = files_now st.
Proof.
  intros Hd. unfold process. cbv zeta.
  destruct (negb (is_probably_text_file (child dpath nm))); [reflexivity|].
  destruct (load_text sys (files_now st) (child dpath nm));
    try reflexivity.
  destruct (FixPaths.apply_replacements s (a_prefix a))
    as [[updated count]|]; [|reflexivity].
  destruct ((count <=? 0)%Z || Py.eqb updated s); [reflexivity|].
  now rewrite Hd.
Qed.

Lemma run_dry (entries : list (Path * str)) :
  a_dry_run a = true ->
  forall st, files_now (state_of (run sys a entries st)) = files_now st.
Proof.
  intros Hd. induction entries as [|[dp nm] rest IH]; intros st;
    [reflexivity|].
  cbn [run]. pose proof (entry_dry dp nm st Hd) as H.
  destruct (process sys a dp nm st) as [st' | st']; cbn [state_of] in H.
  - rewrite IH. exact H.
  - exact H.
Qed.

(** The state that [main] returns is that of the loop body run over the
    entries walked, from the initial state; or the initial state when
    there is no walk. *)
Lemma main_walk (root : Path) (tree : option dirtree) (d : disk) :
  snd (main sys a root tree d)
  = state_of (run sys a (walked root tree)
                  {| files_now := d; scanned := 0%Z; skipped := 0%Z;
                     changed_files := []; printed := [] |})
  \/ snd (main sys a root tree d)
     = {| files_now := d; scanned := 0%Z; skipped := 0%Z;
          changed_files := []; printed := [] |}.
Proof.
  unfold main, walked. cbv zeta.
  destruct tree as [t|]; [|now right].
  destruct (a_prefix a); [now right|]. left.
  rewrite walk_run. now destruct (run sys a (visited root t) _).
Qed.



Lemma main_code (root : Path) (t : dirtree) (d : disk) :
  fst (main sys a root (Some t) d) = Some 0%Z ->
  run sys a (visited root t)
      {| files_now := d; scanned := 0%Z; skipped := 0%Z;
         changed_files := []; printed := [] |}
  = Next (snd (main sys a root (Some t) d)).
Proof.
  unfold main. cbv zeta. destruct (a_prefix a); [discriminate|].
  rewrite walk_run. destruct (run sys a (visited root t) _);
    [reflexivity | discriminate].
Qed.



(** What a turn that ends normally adds to the report and to the
    counters. *)
Lemma entry_report (dpath : Path) (nm : str) (st st' : state) :
  process sys a dpath nm st = Next st' ->
  changed_files st'
  = changed_files st
    ++ report_entry sys (a_prefix a) (files_now st) (dpath, nm)
  /\ scanned st' = (scanned st + text_entries [(dpath, nm)])%Z
  /\ (scanned st' + skipped st' = scanned st + skipped st + 1)%Z.
Proof.
  unfold process, report_entry, text_entries, path_of. cbv zeta.
  cbn [fst snd filter].
  destruct (is_probably_text_file (child dpath nm)); cbn [negb].
  2:{ intros E. injection E as <-. cbn. rewrite app_nil_r.
      repeat split; lia. }
  rewrite load_text_decoded.
  destruct (unreadable sys (child dpath nm)); [discriminate|].
  destruct (files_now st (file_at sys (child dpath nm))) as [f|];
    [|discriminate].
  change (FixPaths.apply_replacements (decoded f) (a_prefix a))
    with (apply_replacements (decoded f) (a_prefix a)).
  destruct (apply_replacements (decoded f) (a_prefix a))
    as [[updated count]|]; [|discriminate].
  destruct ((count <=? 0)%Z || Py.eqb updated (decoded f)).
  { intros E. injection E as <-. cbn. rewrite app_nil_r.
    repeat split; lia. }
  destruct (a_dry_run a).
  { intros E. injection E as <-. cbn. repeat split; lia. }
  match goal with
  | |- context [match ?w with Failed _ => _ | Done _ => _ end] =>
      destruct w as [d1 | d1]; [|discriminate]
  end.
  destruct (save_text sys d1 (child dpath nm) updated); [|discriminate].
  intros E. injection E as <-. cbn. repeat split; lia.
Qed.




Lemma text_entries_cons (e : Path * str) (rest : list (Path * str)) :
  text_entries (e :: rest) = (text_entries [e] + text_entries rest)%Z.
Proof.
  unfold text_entries. cbn [filter].
  destruct (is_probably_text_file (path_of e)); cbn [length]; lia.
Qed.


Lemma run_counts (entries : list (Path * str)) :
  forall st st',
    run sys a entries st = Next st' ->
    scanned st' = (scanned st + text_entries entries)%Z
    /\ (scanned st' + skipped st'
        = scanned st + skipped st + Z.of_nat (length entries))%Z.
Proof.
  induction entries as [|[dp nm] rest IH]; intros st st' L.
  { injection L as <-. unfold text_entries. cbn. split; lia. }
  cbn [run] in L.
  destruct (process sys a dp nm st) as [st1 | st1] eqn:P; [|discriminate].
  destruct (entry_report dp nm st st1 P) as (_ & C2 & C3).
  destruct (IH st1 st' L) as (I2 & I3).
  rewrite text_entries_cons. cbn [length]. split; lia.
Qed.

End PathsMain.

(** X18.  A dry run of engine 2 writes nothing: whatever the tree, the
    prefixes, the links between the files and the way the run ends, the
    contents after [main] are the contents before. *)
Theorem paths_dry_run_writes_nothing
        (sys : Disk.system) (a : FixPathsMain.args) (root : Pathlib.Path)
        (tree : option FixPathsMain.dirtree) (d : Disk.disk) :
  FixPathsMain.a_dry_run a = true ->
  FixPathsMain.files_now (snd (FixPathsMain.main sys a root tree d)) = d.
Proof.
  intros Hd. destruct (main_walk sys a root tree d) as [-> | ->];
    [|reflexivity].
  now rewrite run_dry.
Qed.

Lemma paths_dry_run_writes_nothing_witness :
  FixPathsMain.files_now
    (snd (FixPathsMain.main
            (plain_system [[lit "/"; lit "site"; lit "index.html"]])
            {| FixPathsMain.a_prefix := [lit "/Cyb3Raya-Blog/"];
               FixPathsMain.a_dry_run := true;
               FixPathsMain.a_no_backup := false |}
            [lit "/"; lit "site"]
            (Some (FixPathsMain.Dir [lit "index.html"] []))
            (contents [Disk.Utf8 (lit "/Cyb3Raya-Blog/x")])))
    1
  = Some (Disk.Utf8 (lit "/Cyb3Raya-Blog/x")).
Proof.
  rewrite paths_dry_run_writes_nothing; reflexivity.
Defined.









(** X23.  The counters of the summary of engine 2.  When [main] returns
    0, every entry the walk came to was counted once: the files scanned
    are the entries with a text extension, changed or not, and the files
    scanned and the files skipped together are all the entries. *)
Theorem paths_summary_counts
        (sys : Disk.system) (a : FixPathsMain.args) (root : Pathlib.Path)
        (t : FixPathsMain.dirtree) (d : Disk.disk) :
  fst (FixPathsMain.main sys a root (Some t) d) = Some 0%Z ->
  FixPathsMain.scanned (snd (FixPathsMain.main sys a root (Some t) d))
  = text_entries (visited root t)
  /\ (FixPathsMain.scanned (snd (FixPathsMain.main sys a root (Some t) d))
      + FixPathsMain.skipped
          (snd (FixPathsMain.main sys a root (Some t) d))
      = Z.of_nat (length (visited root t)))%Z.
Proof.
  intros H.
  destruct (run_counts sys a _ _ _ (main_code sys a root t d H))
    as (C2 & C3).
  cbn [FixPathsMain.scanned FixPathsMain.skipped] in *.
  split; lia.
Qed.

Lemma paths_summary_counts_witness :
  FixPathsMain.scanned
    (snd (FixPathsMain.main
            (plain_system [[lit "/"; lit "site"; lit "a.html"]])
            {| FixPathsMain.a_prefix := [lit "Cyb3Raya-Blog"];
               FixPathsMain.a_dry_run := false;
               FixPathsMain.a_no_backup := false |}
            [lit "/"; lit "site"]
            (Some (FixPathsMain.Dir
                     [lit "a.html"; lit "b.png"]
                     [(lit "dist", FixPathsMain.Dir [lit "c.html"] [])]))
            (contents [Disk.Utf8 (lit "/Cyb3Raya-Blog/x")])))
  = 1%Z.
Proof.
  apply (paths_summary_counts
           (plain_system [[lit "/"; lit "site"; lit "a.html"]])
           {| FixPathsMain.a_prefix := [lit "Cyb3Raya-Blog"];
              FixPathsMain.a_dry_run := false;
              FixPathsMain.a_no_backup := false |}
           [lit "/"; lit "site"]
           (FixPathsMain.Dir
              [lit "a.html"; lit "b.png"]
              [(lit "dist", FixPathsMain.Dir [lit "c.html"] [])])).
  reflexivity.
Defined.

(** ** Engine 1: the options [--repo] and [--ext] *)

Section Options.

Import PyLib FixPagesPathsMain.

Lemma lstrip_chars_repeat (c : ascii) (n : nat) (s : str) :
  lstrip_chars (repeat c n ++ s) [c] = lstrip_chars s [c].
Proof.
  induction n as [|n IH]; [reflexivity|].
  cbn [repeat app lstrip_chars existsb]. now rewrite Ascii.eqb_refl.
Qed.

Lemma lstrip_chars_fixed (c : ascii) (s : str) :
  Py.startswith s [c] = false -> lstrip_chars s [c] = s.
Proof.
  destruct s as [|x s]; [reflexivity|].
  cbn [Py.startswith lstrip_chars existsb].
  rewrite andb_true_r, orb_false_r. now intros ->.
Qed.

(** [strip("/")] takes the slashes around a name that neither begins nor
    ends with one. *)
Lemma strip_chars_slashes (r : str) (n m : nat) :
  Py.startswith r (lit "/") = false ->
  Py.endswith r (lit "/") = false ->
  strip_chars (repeat "/"%char n ++ r ++ repeat "/"%char m) (lit "/") = r.
Proof.
  intros Hs He. unfold strip_chars, rstrip_chars.
  change (lit "/") with ["/"%char] in *.
  rewrite lstrip_chars_repeat.
  destruct r as [|x r].
  - cbn [app]. rewrite <- (app_nil_r (repeat "/"%char m)).
    rewrite lstrip_chars_repeat. reflexivity.
  - rewrite (lstrip_chars_fixed "/" ((x :: r) ++ repeat "/"%char m))
      by exact Hs.
    rewrite rev_app_distr, rev_repeat, lstrip_chars_repeat.
    rewrite lstrip_chars_fixed by exact He.
    apply rev_involutive.
Qed.

Lemma process_flags (sys : Disk.system) (a a' : args) (repo : str)
      (fp : Pathlib.Path) (st : state) :
  a_dry_run a = a_dry_run a' -> a_no_backup a = a_no_backup a' ->
  process sys a repo fp st = process sys a' repo fp st.
Proof. intros Hd Hn. unfold process. now rewrite Hd, Hn. Qed.

Lemma loop_flags (sys : Disk.system) (a a' : args) (repo : str)
      (files : list Pathlib.Path) :
  a_dry_run a = a_dry_run a' -> a_no_backup a = a_no_backup a' ->
  forall st, loop sys a repo files st = loop sys a' repo files st.
Proof.
  intros Hd Hn. induction files as [|fp rest IH]; intros st;
    [reflexivity|].
  cbn [loop]. rewrite (process_flags sys a a' repo fp st Hd Hn).
  destruct (process sys a' repo fp st); [apply IH | reflexivity].
Qed.

Lemma strip_in (c : ascii) (s : str) : In c (Py.strip s) -> In c s.
Proof.
  unfold Py.strip. intros H.
  destruct (rstrip_prefix (Py.lstrip s)) as (ws & E & _).
  destruct (lstrip_suffix s) as (ws' & E' & _).
  rewrite E', E. apply in_or_app. right. apply in_or_app. now left.
Qed.

End Options.

(** X25.  The slashes around [--repo] do not count.  A repository name
    that neither begins nor ends with a slash gives the same run of
    [main], the same files, totals and lines, however many slashes are
    written before and after it: [/Cyb3Raya-Blog/] is read as
    [Cyb3Raya-Blog]. *)
Theorem pages_repo_slashes_ignored
        (sys : Disk.system) (a : FixPagesPathsMain.args)
        (files : list Pathlib.Path) (d : Disk.disk) (r : str)
        (n m : nat) :
  Py.startswith r (lit "/") = false ->
  Py.endswith r (lit "/") = false ->
  FixPagesPathsMain.a_repo a
  = repeat "/"%char n ++ r ++ repeat "/"%char m ->
  FixPagesPathsMain.main sys a files d
  = FixPagesPathsMain.main
      sys
      {| FixPagesPathsMain.a_repo := r;
         FixPagesPathsMain.a_ext := FixPagesPathsMain.a_ext a;
         FixPagesPathsMain.a_dry_run := FixPagesPathsMain.a_dry_run a;
         FixPagesPathsMain.a_no_backup := FixPagesPathsMain.a_no_backup a |}
      files d.
Proof.
  intros Hs He Hr. unfold FixPagesPathsMain.main. cbv zeta.
  cbn [FixPagesPathsMain.a_repo]. rewrite Hr.
  rewrite (strip_chars_slashes r n m Hs He).
  pose proof (strip_chars_slashes r 0 0 Hs He) as H0.
  cbn [repeat app] in H0. rewrite app_nil_r in H0. rewrite H0.
  now apply loop_flags.
Qed.

Lemma pages_repo_slashes_ignored_witness :
  FixPagesPathsMain.main
    (plain_system [[lit "a.html"]])
    {| FixPagesPathsMain.a_repo := lit "//Cyb3Raya-Blog/";
       FixPagesPathsMain.a_ext := lit ".html";
       FixPagesPathsMain.a_dry_run := false;
       FixPagesPathsMain.a_no_backup := true |}
    [[lit "a.html"]]
    (contents [Disk.Utf8 (lit "<a href='/x'>")])
  = FixPagesPathsMain.main
      (plain_system [[lit "a.html"]])
      {| FixPagesPathsMain.a_repo := blog;
         FixPagesPathsMain.a_ext := lit ".html";
         FixPagesPathsMain.a_dry_run := false;
         FixPagesPathsMain.a_no_backup := true |}
      [[lit "a.html"]]
      (contents [Disk.Utf8 (lit "<a href='/x'>")]).
Proof.
  apply (pages_repo_slashes_ignored
           (plain_system [[lit "a.html"]])
           {| FixPagesPathsMain.a_repo := lit "//Cyb3Raya-Blog/";
              FixPagesPathsMain.a_ext := lit ".html";
              FixPagesPathsMain.a_dry_run := false;
              FixPagesPathsMain.a_no_backup := true |}
           _ _ blog 2 1); reflexivity.
Defined.

(** X26.  The extensions read from [--ext].  Whatever the option holds,
    the list is computed without an exception, and each of its entries
    is not empty, has no white space at either end and holds no comma:
    blank entries between commas are dropped. *)
Theorem exts_entries (a : FixPagesPathsMain.args) :
  exists l,
    FixPagesPathsMain.exts a = Ok l
    /\ Forall (fun e => e <> [] /\ Py.strip e = e /\ ~ In ","%char e) l.
Proof.
  unfold FixPagesPathsMain.exts, Py.split.
  change (lit ",") with [","%char]. cbn [bind].
  eexists. split; [reflexivity|].
  apply Forall_forall. intros e He.
  apply in_map_iff in He. destruct He as (x & <- & Hx).
  apply filter_In in Hx. destruct Hx as [Hx Hne].
  split; [|split].
  - apply eqb_neq. now destruct (Py.eqb (Py.strip x) []).
  - apply strip_idem.
  - intros Hin. apply strip_in in Hin.
    pose proof (split_from_free [","%char] ltac:(discriminate)
                                (FixPagesPathsMain.a_ext a) 0) as F.
    rewrite Forall_forall in F. apply (F x Hx).
    apply in_split in Hin. destruct Hin as (l1 & l2 & ->).
    now exists l1, l2.
Qed.
